(** * UART tester: frame protocol engine

    A shallow embedding of [UART_Tester/tester.py]: the CRC-16 (Modbus)
    checksum, the packet generator, the resynchronising receive loop of
    [serial_receiver] and the comparison loop of [main], followed by the
    properties stated for them.

    Python integers are unbounded, so they are modelled as [Z]; a [bytes] or
    [bytearray] value is a [list Z] whose elements satisfy [is_byte].
    Exceptions are values of [exn] carried by the [result] monad. *)

From Stdlib Require Import ZArith List Bool Lia Floats.SpecFloat.
From Stdlib Require Strings.String.
Import ListNotations String.StringSyntax.
Local Open Scope Z_scope.
Delimit Scope string_scope with string.

Set Implicit Arguments.

(** ** Exceptions *)

Inductive exn : Type :=
| ValueError          (* bytes(): element outside range(0, 256) *)
| StructError         (* struct.pack / struct.unpack *)
| IndexError          (* sequence index out of range, pop from empty *)
| ZeroDivisionError.  (* true division by zero *)

Inductive result (A : Type) : Type :=
| Ok (a : A)
| Raise (e : exn).

Arguments Ok {A} a.
Arguments Raise {A} e.

Definition bind {A B : Type} (m : result A) (k : A -> result B) : result B :=
  match m with
  | Ok a => k a
  | Raise e => Raise e
  end.

Notation "x <- m ;; k" := (bind m (fun x => k))
  (at level 61, m at next level, right associativity).

(** ** Bytes *)

Definition is_byte (b : Z) : Prop := 0 <= b < 256.

Definition byteb (b : Z) : bool := (0 <=? b) && (b <? 256).

(** [bytes(iterable_of_ints)]: every element must be in [range(0, 256)]. *)
Definition bytes (l : list Z) : result (list Z) :=
  if forallb byteb l then Ok l else Raise ValueError.

(** Python slice [s[i:j]] for [0 <= i <= j]. *)
Definition slice {A : Type} (i j : nat) (s : list A) : list A :=
  firstn (j - i) (skipn i s).

Fixpoint list_eqb (a b : list Z) : bool :=
  match a, b with
  | [], [] => true
  | x :: a', y :: b' => (x =? y) && list_eqb a' b'
  | _, _ => false
  end.

(** ** CRC16 (Modbus) *)

Module CRC.

(** One pass of the body of [for _ in range(8)]. *)
Definition shift_step (crc : Z) : Z :=
  if negb (Z.land crc 1 =? 0)
  then Z.lxor (Z.shiftr crc 1) 0xA001
  else Z.shiftr crc 1.

(** The body of [for b in data]. *)
Definition byte_step (crc b : Z) : Z :=
  Nat.iter 8 shift_step (Z.lxor crc b).

Definition crc16 (data : list Z) : Z :=
  fold_left byte_step data 0xFFFF.

(** The reference definition, following the words of the specification:
    XOR the byte into the low byte of the accumulator, then eight times shift
    right by one and XOR with 0xA001 when the previous low bit was 1. *)
Definition ref_xor_low (acc b : Z) : Z :=
  Z.lor (Z.shiftl (Z.shiftr acc 8) 8) (Z.lxor (Z.land acc 0xFF) b).

Definition ref_shift (acc : Z) : Z :=
  let shifted := Z.shiftr acc 1 in
  if Z.testbit acc 0 then Z.lxor shifted 0xA001 else shifted.

Fixpoint ref_rounds (n : nat) (acc : Z) : Z :=
  match n with
  | O => acc
  | S n' => ref_rounds n' (ref_shift acc)
  end.

Fixpoint ref_from (acc : Z) (data : list Z) : Z :=
  match data with
  | [] => acc
  | b :: rest => ref_from (ref_rounds 8 (ref_xor_low acc b)) rest
  end.

Definition crc16_modbus_ref (data : list Z) : Z := ref_from 0xFFFF data.

End CRC.

Import CRC.

(** ** struct *)

(** [struct.pack('<H', v)]. *)
Definition struct_pack_H (v : Z) : result (list Z) :=
  if (0 <=? v) && (v <=? 65535)
  then Ok [Z.land v 0xFF; Z.shiftr v 8]
  else Raise StructError.

(** [struct.unpack('<H', b)[0]]: the buffer must hold exactly two bytes. *)
Definition struct_unpack_H (b : list Z) : result Z :=
  match b with
  | [lo; hi] => Ok (lo + 256 * hi)
  | _ => Raise StructError
  end.

(** ** Packet generator *)

Definition HEADER : list Z := [0x24; 0x46; 0x53].

Definition create_packet (data_bytes : list Z) : result (list Z) :=
  let header := HEADER in
  body <- bytes data_bytes ;;
  let raw := header ++ body in
  let crc := crc16 raw in
  packed <- struct_pack_H crc ;;
  Ok (raw ++ packed).

(** ** Serial receiver thread *)

(** The state the receiver thread works on: its local [buffer] and the queue
    it shares with the main thread ([put] appends at the back). *)
Record rx_state : Type := {
  buffer : list Z;
  packet_queue : list (list Z)
}.

(** What one pass through the body of [while True] does. *)
Inductive iteration : Type :=
| Break
| Continue (st : rx_state)
| Crash (e : exn).

(** [buffer.pop(0)] followed by [continue]. *)
Definition pop0 (st : rx_state) : iteration :=
  match buffer st with
  | [] => Crash IndexError
  | _ :: rest => Continue {| buffer := rest; packet_queue := packet_queue st |}
  end.

Definition inner_step (st : rx_state) : iteration :=
  let buffer := buffer st in
  if (length buffer <? 16)%nat then Break
  else if negb (list_eqb (slice 0 3 buffer) HEADER) then pop0 st
  else
    let packet := slice 0 16 buffer in
    match struct_unpack_H (slice 14 16 packet) with
    | Raise e => Crash e
    | Ok received_crc =>
        let calculated_crc := crc16 (slice 0 14 packet) in
        if negb (received_crc =? calculated_crc) then pop0 st
        else
          let data_bytes := slice 3 14 packet in
          Continue {| buffer := skipn 16 buffer;
                      packet_queue := packet_queue st ++ [data_bytes] |}
    end.

(** How a loop of the receiver ends. *)
Inductive run : Type :=
| Done (st : rx_state)
| Crashed (e : exn) (st : rx_state)
| OutOfFuel.

Fixpoint inner_loop_fuel (fuel : nat) (st : rx_state) : run :=
  match fuel with
  | O => OutOfFuel
  | S fuel' =>
      match inner_step st with
      | Break => Done st
      | Continue st' => inner_loop_fuel fuel' st'
      | Crash e => Crashed e st
      end
  end.

(** The [while True] loop; every pass that does not break shortens the
    buffer, so one more pass than there are buffered bytes is enough. *)
Definition inner_loop (st : rx_state) : run :=
  inner_loop_fuel (S (length (buffer st))) st.

(** What [ser.read(64)] gives: some bytes (at most 64, none on a read
    timeout; nothing below depends on the bound) or a
    [serial.SerialException]. *)
Inductive read_result : Type :=
| Data (data : list Z)
| SerialException.

(** [buffer.extend(data)]. *)
Definition extend (st : rx_state) (data : list Z) : rx_state :=
  {| buffer := buffer st ++ data; packet_queue := packet_queue st |}.

(** The outer [while not stop_event.is_set()] loop, run against the reads the
    port answers before the stop event is seen set. *)
Fixpoint receiver_loop (ser : list read_result) (st : rx_state) : run :=
  match ser with
  | [] => Done st
  | SerialException :: _ => Done st
  | Data data :: ser' =>
      match data with
      | [] => receiver_loop ser' st
      | _ :: _ =>
          match inner_loop (extend st data) with
          | Done st' => receiver_loop ser' st'
          | stopped => stopped
          end
      end
  end.

Definition serial_receiver (ser : list read_result)
                           (packet_queue : list (list Z)) : run :=
  receiver_loop ser {| buffer := []; packet_queue := packet_queue |}.

(** Frame validation in the words of the specification: reject a 16-byte
    candidate whose first three bytes are not the magic constant or whose
    checksum over bytes 0..13 differs from the little-endian value in bytes
    14..15; otherwise return the 11 payload bytes. *)
Definition tryDecode (candidate : list Z) : option (list Z) :=
  match candidate with
  | [m0; m1; m2; p0; p1; p2; p3; p4; p5; p6; p7; p8; p9; p10; c_lo; c_hi] =>
      if (m0 =? 0x24) && (m1 =? 0x46) && (m2 =? 0x53)
      then
        if crc16 [m0; m1; m2; p0; p1; p2; p3; p4; p5; p6; p7; p8; p9; p10]
           =? c_lo + 256 * c_hi
        then Some [p0; p1; p2; p3; p4; p5; p6; p7; p8; p9; p10]
        else None
      else None
  | _ => None
  end.

(** ** Main thread: comparison of received against expected values *)

(** Python floats are IEEE 754 binary64. *)
Module Float64.

Definition prec : Z := 53.
Definition emax : Z := 1024.

(** [float(z)] *)
Definition of_int (z : Z) : spec_float := binary_normalize prec emax z 0 false.

Definition mul : spec_float -> spec_float -> spec_float := SFmul prec emax.
Definition div : spec_float -> spec_float -> spec_float := SFdiv prec emax.
Definition abs : spec_float -> spec_float := SFabs.
Definition leb : spec_float -> spec_float -> bool := SFleb.

(** [a / b] on two integers: the correctly rounded quotient, which for
    operands below 2^53 in magnitude is the quotient of their floats. *)
Definition truediv (a b : Z) : result spec_float :=
  if b =? 0 then Raise ZeroDivisionError
  else Ok (div (of_int a) (of_int b)).

End Float64.

Inductive verdict : Type := PASS | FAIL.

(** One entry of [results_all]. *)
Module Cmp.
Record t : Type := {
  id : Z;
  expected : Z;
  received : Z;
  error : spec_float;
  status : verdict
}.
End Cmp.

(** [s[idx]] for [idx >= 0]. *)
Definition getitem (s : list Z) (idx : nat) : result Z :=
  match nth_error s idx with
  | Some v => Ok v
  | None => Raise IndexError
  end.

(** [range(n)] *)
Definition range (n : nat) : list nat := seq 0 n.

Section Session.

Variable expected_data : list Z.
Variable packets_to_send : nat.

(** The body of [for idx in range(11)], up to the record it appends. *)
Definition compare_field (recv_data : list Z) (idx : nat) : result Cmp.t :=
  expected <- getitem expected_data idx ;;
  received <- getitem recv_data idx ;;
  quotient <- Float64.truediv (received - expected) expected ;;
  let error := Float64.mul quotient (Float64.of_int 100) in
  let status :=
    if Float64.leb (Float64.abs error) (Float64.of_int 1) then PASS else FAIL in
  Ok {| Cmp.id := Z.of_nat idx + 1;
        Cmp.expected := expected;
        Cmp.received := received;
        Cmp.error := error;
        Cmp.status := status |}.

Fixpoint compare_fields (recv_data : list Z) (idxs : list nat)
                        (results_all : list Cmp.t) : result (list Cmp.t) :=
  match idxs with
  | [] => Ok results_all
  | idx :: idxs' =>
      record <- compare_field recv_data idx ;;
      compare_fields recv_data idxs' (results_all ++ [record])
  end.

(** What [packet_queue.get(timeout=1)] gives: the next payload, or the
    [queue.Empty] exception once the wait has timed out. *)
Inductive get_result : Type :=
| Item (recv_data : list Z)
| Empty.

Record session : Type := {
  received_packets : nat;
  results_all : list Cmp.t;
  stdout : list String.string
}.

(** How the [while received_packets < packets_to_send] loop stands after the
    given queue events: it has ended, it is blocked in the next [get], or an
    exception has left it. *)
Inductive session_run : Type :=
| Finished (s : session)
| Waiting (s : session)
| Aborted (e : exn).

Definition print (line : String.string) (s : session) : session :=
  {| received_packets := received_packets s;
     results_all := results_all s;
     stdout := stdout s ++ [line] |}.

Fixpoint consume (gets : list get_result) (s : session) : session_run :=
  if (received_packets s <? packets_to_send)%nat then
    match gets with
    | [] => Waiting s
    | Empty :: gets' =>
        consume gets' (print "Timeout waiting for packet"%string s)
    | Item recv_data :: gets' =>
        let s1 := {| received_packets := received_packets s + 1;
                     results_all := results_all s;
                     stdout := stdout s |} in
        match compare_fields recv_data (range 11) (results_all s1) with
        | Raise e => Aborted e
        | Ok results =>
            consume gets' {| received_packets := received_packets s1;
                             results_all := results;
                             stdout := stdout s1 |}
        end
    end
  else Finished s.

(** [for _ in range(packets_to_send)]: the frames written to the port. *)
Fixpoint send_packets (n : nat) (written : list (list Z))
  : result (list (list Z)) :=
  match n with
  | O => Ok written
  | S n' =>
      packet <- create_packet expected_data ;;
      send_packets n' (written ++ [packet])
  end.

Definition session_start : session :=
  {| received_packets := 0%nat;
     results_all := [];
     stdout := ["Serial receiver thread started..."%string] |}.

(** The send phase followed by the consumption phase. *)
Definition run_session (gets : list get_result)
  : result (list (list Z) * session_run) :=
  written <- send_packets packets_to_send [] ;;
  Ok (written, consume gets session_start).

End Session.

Definition main (gets : list get_result)
  : result (list (list Z) * session_run) :=
  let expected_data := [10; 20; 30; 40; 50; 60; 70; 80; 90; 100; 110] in
  let packets_to_send := 5%nat in
  run_session expected_data packets_to_send gets.

(** ** Vocabulary of the statements *)

(** The values of an unsigned 16-bit integer. *)
Definition word16 (c : Z) : Prop := 0 <= c < 65536.

(** The two checksum bytes of a frame with the given payload. *)
Definition checksum_bytes (payload : list Z) : list Z :=
  let crc := crc16 (HEADER ++ payload) in [Z.land crc 0xFF; Z.shiftr crc 8].

(** The frame of a payload ([[]] where [create_packet] raises). *)
Definition frame_of (payload : list Z) : list Z :=
  match create_packet payload with
  | Ok frame => frame
  | Raise _ => []
  end.

(** A payload: exactly 11 bytes. *)
Definition is_payload (p : list Z) : Prop :=
  length p = 11%nat /\ Forall is_byte p.

(** The checks of the loop body, read off the buffer. *)
Definition magic_ok (buf : list Z) : bool :=
  list_eqb (firstn 3 buf) HEADER.

Definition checksum_ok (buf : list Z) : bool :=
  crc16 (firstn 14 buf) =? nth 14 buf 0 + 256 * nth 15 buf 0.

(** The state after a failed candidate: the leading byte is gone. *)
Definition drop_one (st : rx_state) : rx_state :=
  {| buffer := skipn 1 (buffer st); packet_queue := packet_queue st |}.

(** The state after a valid candidate: payload queued, 16 bytes gone. *)
Definition take_frame (st : rx_state) : rx_state :=
  {| buffer := skipn 16 (buffer st);
     packet_queue := packet_queue st ++ [firstn 11 (skipn 3 (buffer st))] |}.

(** Queue a payload and remove the 16 bytes of its frame. *)
Definition emit (st : rx_state) (payload : list Z) : rx_state :=
  {| buffer := skipn 16 (buffer st);
     packet_queue := packet_queue st ++ [payload] |}.

(** The bytes on the wire: each frame followed by its junk. *)
Fixpoint wire (segs : list (list Z * list Z)) : list Z :=
  match segs with
  | [] => []
  | (payload, junk) :: segs' => frame_of payload ++ junk ++ wire segs'
  end.

(** No 16-byte window that starts on a junk byte decodes. *)
Definition junk_clean (junk rest : list Z) : Prop :=
  forall i : nat,
    (i < length junk)%nat ->
    (16 <= length (skipn i (junk ++ rest)))%nat ->
    tryDecode (firstn 16 (skipn i (junk ++ rest))) = None.

(** The same for the junk before the first frame and after each frame. *)
Fixpoint no_spurious (junk : list Z) (segs : list (list Z * list Z)) : Prop :=
  junk_clean junk (wire segs)
  /\ match segs with
     | [] => True
     | (_, junk') :: segs' => no_spurious junk' segs'
     end.

(** [(received - expected) / expected * 100] in binary64. *)
Definition percent_error (expected received : Z) : spec_float :=
  Float64.mul
    (Float64.div (Float64.of_int (received - expected)) (Float64.of_int expected))
    (Float64.of_int 100).

(** [abs(error) <= 1] *)
Definition within_tolerance (error : spec_float) : bool :=
  Float64.leb (Float64.abs error) (Float64.of_int 1).

(** The record appended for field [idx]. *)
Definition field_record (idx : nat) (expected received : Z) : Cmp.t :=
  {| Cmp.id := Z.of_nat idx + 1;
     Cmp.expected := expected;
     Cmp.received := received;
     Cmp.error := percent_error expected received;
     Cmp.status :=
       if within_tolerance (percent_error expected received)
       then PASS else FAIL |}.

(** The eleven records of one received payload. *)
Definition payload_records (expected_data recv_data : list Z) : list Cmp.t :=
  map (fun idx => field_record idx (nth idx expected_data 0) (nth idx recv_data 0))
      (range 11).

(** The payloads among some queue events, in order. *)
Fixpoint items (gets : list get_result) : list (list Z) :=
  match gets with
  | [] => []
  | Item recv_data :: gets' => recv_data :: items gets'
  | Empty :: gets' => items gets'
  end.

(** The tolerance test in exact arithmetic: [|r - e| / e * 100 <= 1]. *)
Definition exact_within_tolerance (expected received : Z) : bool :=
  100 * Z.abs (received - expected) <=? expected.

(** The 256 byte values. *)
Definition byte_values : list Z := map Z.of_nat (seq 0 256).

(** The binary64 verdict and the exact one coincide on this pair. *)
Definition verdict_agrees (expected received : Z) : bool :=
  Bool.eqb (within_tolerance (percent_error expected received))
           (exact_within_tolerance expected received).

(** The line printed when a wait times out. *)
Definition TIMEOUT_LINE : String.string := "Timeout waiting for packet"%string.

(** The number of timeouts among some queue events. *)
Fixpoint timeouts (gets : list get_result) : nat :=
  match gets with
  | [] => 0
  | Item _ :: gets' => timeouts gets'
  | Empty :: gets' => S (timeouts gets')
  end.

(** Sample data for the instances given after the theorems. *)
Definition sample_payload : list Z :=
  [10; 20; 30; 40; 50; 60; 70; 80; 90; 100; 110].

Definition sample_payload' : list Z :=
  [1; 2; 3; 4; 5; 6; 7; 8; 9; 10; 255].

Definition sample_junk : list Z := [1; 2; 0x24; 0x46].

Definition sample_segs : list (list Z * list Z) :=
  [(sample_payload, [9; 0x24]); (sample_payload', [0x46; 0x53; 5])].

Definition sample_stream : list Z := sample_junk ++ wire sample_segs.

Definition sample_chunks : list (list Z) :=
  [firstn 7 sample_stream; []; firstn 20 (skipn 7 sample_stream);
   skipn 27 sample_stream].

(** The byte sequence [l] with bit [k] of its byte [i] inverted. *)
Definition flip_bit (i k : nat) (l : list Z) : list Z :=
  firstn i l
  ++ match skipn i l with
     | [] => []
     | b :: rest => Z.lxor b (2 ^ Z.of_nat k) :: rest
     end.

(** The bytes the port delivers before it fails or the stop event is
    seen. *)
Fixpoint bytes_read (ser : list read_result) : list Z :=
  match ser with
  | [] => []
  | SerialException :: _ => []
  | Data data :: ser' => data ++ bytes_read ser'
  end.

(** The payload [p] was decoded from 16 consecutive bytes of [stream]. *)
Definition decoded_from (stream p : list Z) : Prop :=
  exists pre window post,
    stream = pre ++ window ++ post /\ tryDecode window = Some p.

(** A field that matches its expected value has error [+0.0]. *)
Definition exact_match_zero (expected : Z) : bool :=
  match percent_error expected expected with
  | S754_zero false => true
  | _ => false
  end.

(** The byte sequence [l] with its byte [i] replaced by [b]. *)
Definition replace_byte (i : nat) (b : Z) (l : list Z) : list Z :=
  firstn i l
  ++ match skipn i l with
     | [] => []
     | _ :: rest => b :: rest
     end.

(** * Properties *)

(** ** Bytes and lists *)

Lemma byteb_spec (b : Z) : byteb b = true <-> is_byte b.
Proof. unfold byteb, is_byte. rewrite andb_true_iff. lia. Qed.

Lemma forallb_byteb (l : list Z) : forallb byteb l = true <-> Forall is_byte l.
Proof.
  rewrite forallb_forall, Forall_forall.
  split; intros H x Hx; apply byteb_spec, H, Hx.
Qed.

Lemma bytes_ok (l : list Z) : Forall is_byte l -> bytes l = Ok l.
Proof.
  intros H. unfold bytes. apply forallb_byteb in H. now rewrite H.
Qed.

Lemma bytes_not_ok (l : list Z) : ~ Forall is_byte l -> bytes l = Raise ValueError.
Proof.
  intros H. unfold bytes.
  destruct (forallb byteb l) eqn:E; [|reflexivity].
  apply forallb_byteb in E. contradiction.
Qed.

Lemma firstn_bytes (k : nat) (l : list Z) :
  Forall is_byte l -> Forall is_byte (firstn k l).
Proof.
  revert l. induction k as [|k IH]; intros l Hl; [constructor|].
  destruct Hl as [|x l Hx Hl]; cbn [firstn]; constructor; auto.
Qed.

Lemma list_eqb_eq (a b : list Z) : list_eqb a b = true <-> a = b.
Proof.
  revert b. induction a as [|x a IH]; intros [|y b]; simpl;
    try (split; [discriminate|congruence]); try tauto.
  rewrite andb_true_iff, Z.eqb_eq, IH.
  split; [intros [-> ->]; reflexivity | intros [= -> ->]; auto].
Qed.

(** ** The checksum *)

Module CRCFacts.

Lemma lxor_word16 (a b : Z) : word16 a -> word16 b -> word16 (Z.lxor a b).
Proof.
  unfold word16. intros [Ha Ha'] [Hb Hb']. split.
  - apply Z.lxor_nonneg. lia.
  - destruct (Z.eq_dec (Z.lxor a b) 0) as [->|Hne]; [lia|].
    assert (Hpos : 0 < Z.lxor a b).
    { assert (0 <= Z.lxor a b) by (apply Z.lxor_nonneg; lia). lia. }
    change 65536 with (2 ^ 16).
    apply Z.log2_lt_pow2; [assumption|].
    pose proof (Z.log2_lxor a b Ha Hb) as Hl.
    assert (Hlog : forall x, 0 <= x < 65536 -> Z.log2 x < 16).
    { intros x Hx. destruct (Z.eq_dec x 0) as [->|]; [simpl; lia|].
      apply Z.log2_lt_pow2; [lia|]. change (2 ^ 16) with 65536. lia. }
    pose proof (Hlog a (conj Ha Ha')). pose proof (Hlog b (conj Hb Hb')).
    lia.
Qed.

Lemma shiftr1_word16 (c : Z) : word16 c -> word16 (Z.shiftr c 1).
Proof.
  unfold word16. intros H.
  rewrite Z.shiftr_div_pow2 by lia. change (2 ^ 1) with 2.
  split; [apply Z.div_pos; lia | apply Z.div_lt_upper_bound; lia].
Qed.

Lemma shift_step_word16 (c : Z) : word16 c -> word16 (shift_step c).
Proof.
  intros H. unfold shift_step.
  destruct (negb (Z.land c 1 =? 0)).
  - apply lxor_word16; [now apply shiftr1_word16 | unfold word16; lia].
  - now apply shiftr1_word16.
Qed.

Lemma iter_shift_step_word16 (n : nat) (c : Z) :
  word16 c -> word16 (Nat.iter n shift_step c).
Proof.
  intros H. induction n as [|n IH]; simpl; [assumption|].
  now apply shift_step_word16.
Qed.

Lemma byte_step_word16 (c b : Z) :
  word16 c -> is_byte b -> word16 (byte_step c b).
Proof.
  intros Hc Hb. unfold byte_step.
  apply iter_shift_step_word16, lxor_word16; [assumption|].
  unfold word16, is_byte in *. lia.
Qed.

Lemma fold_byte_step_word16 (data : list Z) (c : Z) :
  word16 c -> Forall is_byte data -> word16 (fold_left byte_step data c).
Proof.
  revert c. induction data as [|b data IH]; intros c Hc Hd; simpl.
  - assumption.
  - inversion Hd; subst. apply IH; [now apply byte_step_word16 | assumption].
Qed.

Lemma crc16_word16 (data : list Z) : Forall is_byte data -> word16 (crc16 data).
Proof.
  intros H. apply fold_byte_step_word16; [unfold word16; lia | assumption].
Qed.

(** The two readings of "XOR the byte into the accumulator" agree on bytes. *)
Lemma ref_xor_low_lxor (acc b : Z) : is_byte b -> ref_xor_low acc b = Z.lxor acc b.
Proof.
  intros Hb. unfold ref_xor_low. apply Z.bits_inj'. intros n Hn.
  rewrite Z.lor_spec, !Z.lxor_spec.
  change 0xFF with (Z.ones 8).
  destruct (Z.lt_ge_cases n 8) as [Hlt|Hge].
  - rewrite Z.shiftl_spec_low by lia.
    rewrite Z.land_spec, Z.ones_spec_low by lia.
    now rewrite andb_true_r.
  - rewrite Z.shiftl_spec by lia.
    rewrite Z.shiftr_spec by lia.
    replace (n - 8 + 8) with n by lia.
    rewrite Z.land_spec, Z.ones_spec_high by lia.
    rewrite andb_false_r.
    assert (Hbn : Z.testbit b n = false).
    { destruct (Z.eq_dec b 0) as [->|Hb0]; [apply Z.bits_0|].
      apply Z.bits_above_log2; [unfold is_byte in Hb; lia|].
      assert (Z.log2 b < 8).
      { apply Z.log2_lt_pow2; unfold is_byte in Hb; [lia|].
        change (2 ^ 8) with 256. lia. }
      lia. }
    rewrite Hbn. now destruct (Z.testbit acc n).
Qed.

Lemma ref_shift_shift_step (acc : Z) : ref_shift acc = shift_step acc.
Proof.
  unfold ref_shift, shift_step.
  assert (Hland : Z.land acc 1 = acc mod 2)
    by exact (Z.land_ones acc 1 ltac:(lia)).
  rewrite Hland, <- Z.bit0_mod.
  destruct (Z.testbit acc 0); reflexivity.
Qed.

Lemma ref_rounds_iter (n : nat) (acc : Z) :
  ref_rounds n acc = Nat.iter n shift_step acc.
Proof.
  revert acc. induction n as [|n IH]; intros acc; [reflexivity|].
  cbn [ref_rounds]. rewrite IH, ref_shift_shift_step.
  now rewrite Nat.iter_succ_r.
Qed.

Lemma ref_from_fold (data : list Z) (acc : Z) :
  Forall is_byte data -> ref_from acc data = fold_left byte_step data acc.
Proof.
  revert acc. induction data as [|b data IH]; intros acc Hd; [reflexivity|].
  inversion Hd; subst. cbn [ref_from fold_left].
  rewrite IH by assumption.
  unfold byte_step.
  now rewrite ref_rounds_iter, ref_xor_low_lxor.
Qed.

End CRCFacts.

(** ** Packing the checksum and building a frame *)

Import CRCFacts.

Lemma land255_shiftr8 (v : Z) :
  0 <= v -> Z.land v 0xFF + 256 * Z.shiftr v 8 = v.
Proof.
  intros Hv.
  assert (Hland : Z.land v 0xFF = v mod 256)
    by exact (Z.land_ones v 8 ltac:(lia)).
  assert (Hshift : Z.shiftr v 8 = v / 256)
    by exact (Z.shiftr_div_pow2 v 8 ltac:(lia)).
  rewrite Hland, Hshift.
  pose proof (Z.div_mod v 256 ltac:(lia)). lia.
Qed.

Lemma pack_bytes (v : Z) :
  word16 v -> is_byte (Z.land v 0xFF) /\ is_byte (Z.shiftr v 8).
Proof.
  unfold word16, is_byte. intros Hv.
  assert (Hland : Z.land v 0xFF = v mod 256)
    by exact (Z.land_ones v 8 ltac:(lia)).
  assert (Hshift : Z.shiftr v 8 = v / 256)
    by exact (Z.shiftr_div_pow2 v 8 ltac:(lia)).
  rewrite Hland, Hshift.
  pose proof (Z.mod_pos_bound v 256 ltac:(lia)).
  assert (0 <= v / 256) by (apply Z.div_pos; lia).
  assert (v / 256 < 256) by (apply Z.div_lt_upper_bound; lia).
  lia.
Qed.

Lemma struct_pack_H_word16 (v : Z) :
  word16 v -> struct_pack_H v = Ok [Z.land v 0xFF; Z.shiftr v 8].
Proof.
  unfold word16, struct_pack_H. intros Hv.
  replace ((0 <=? v) && (v <=? 65535)) with true; [reflexivity|].
  symmetry. apply andb_true_iff. lia.
Qed.

Lemma struct_pack_H_outside (v : Z) :
  ~ word16 v -> struct_pack_H v = Raise StructError.
Proof.
  unfold word16, struct_pack_H. intros Hv.
  destruct ((0 <=? v) && (v <=? 65535)) eqn:E; [|reflexivity].
  apply andb_true_iff in E. lia.
Qed.

Lemma header_bytes : Forall is_byte HEADER.
Proof. unfold HEADER, is_byte. repeat constructor; lia. Qed.

Lemma create_packet_bytes (p : list Z) :
  Forall is_byte p -> create_packet p = Ok (HEADER ++ p ++ checksum_bytes p).
Proof.
  intros Hp. unfold create_packet, checksum_bytes.
  rewrite (bytes_ok Hp). cbn [bind].
  rewrite struct_pack_H_word16.
  - cbn [bind]. now rewrite <- app_assoc.
  - apply crc16_word16, Forall_app. split; [apply header_bytes | assumption].
Qed.

Lemma frame_of_bytes (p : list Z) :
  Forall is_byte p -> frame_of p = HEADER ++ p ++ checksum_bytes p.
Proof. intros Hp. unfold frame_of. now rewrite create_packet_bytes. Qed.

Lemma frame_of_length (p : list Z) :
  Forall is_byte p -> length (frame_of p) = (length p + 5)%nat.
Proof.
  intros Hp. rewrite frame_of_bytes by assumption.
  rewrite !length_app. cbn. lia.
Qed.

(** ** One pass of the receive loop *)

Lemma at_least_16 (l : list Z) :
  (16 <= length l)%nat ->
  exists a0 a1 a2 a3 a4 a5 a6 a7 a8 a9 a10 a11 a12 a13 a14 a15 rest,
    l = a0 :: a1 :: a2 :: a3 :: a4 :: a5 :: a6 :: a7 :: a8 :: a9 :: a10
        :: a11 :: a12 :: a13 :: a14 :: a15 :: rest.
Proof.
  intros H.
  do 16 (destruct l as [|? l]; [cbn in H; lia|]).
  repeat eexists.
Qed.

Lemma inner_step_break (st : rx_state) :
  (length (buffer st) < 16)%nat -> inner_step st = Break.
Proof.
  intros H. unfold inner_step.
  apply Nat.ltb_lt in H. now rewrite H.
Qed.

Lemma inner_step_full (st : rx_state) :
  (16 <= length (buffer st))%nat ->
  inner_step st =
    Continue (if magic_ok (buffer st) && checksum_ok (buffer st)
              then take_frame st else drop_one st).
Proof.
  intros H. destruct st as [buf q]. cbn [buffer] in H.
  destruct (at_least_16 buf H)
    as (a0 & a1 & a2 & a3 & a4 & a5 & a6 & a7 & a8 & a9 & a10 & a11 & a12
        & a13 & a14 & a15 & rest & ->).
  unfold inner_step, magic_ok, checksum_ok, take_frame, drop_one, pop0, slice.
  cbn -[crc16 Z.eqb Z.add Z.mul list_eqb HEADER].
  destruct (list_eqb [a0; a1; a2] HEADER); cbn -[crc16 Z.eqb Z.add Z.mul];
    [|reflexivity].
  destruct (a14 + 256 * a15 =? crc16 [a0; a1; a2; a3; a4; a5; a6; a7; a8; a9;
                                     a10; a11; a12; a13]) eqn:E;
    rewrite Z.eqb_sym in E; rewrite E; reflexivity.
Qed.

Lemma tryDecode_checks (buf : list Z) :
  (16 <= length buf)%nat ->
  tryDecode (firstn 16 buf) =
    if magic_ok buf && checksum_ok buf
    then Some (firstn 11 (skipn 3 buf)) else None.
Proof.
  intros H.
  destruct (at_least_16 buf H)
    as (a0 & a1 & a2 & a3 & a4 & a5 & a6 & a7 & a8 & a9 & a10 & a11 & a12
        & a13 & a14 & a15 & rest & ->).
  unfold magic_ok, checksum_ok.
  cbn -[crc16 Z.eqb Z.add Z.mul].
  destruct (a0 =? 36), (a1 =? 70), (a2 =? 83); cbn -[crc16 Z.eqb Z.add Z.mul];
    try reflexivity.
Qed.

Lemma inner_step_cases (st : rx_state) :
  (inner_step st = Break /\ (length (buffer st) < 16)%nat)
  \/ (exists st', inner_step st = Continue st'
                  /\ (16 <= length (buffer st))%nat
                  /\ (length (buffer st') < length (buffer st))%nat
                  /\ exists n, buffer st' = skipn n (buffer st)).
Proof.
  destruct (Nat.lt_ge_cases (length (buffer st)) 16) as [Hlt|Hge].
  - left. split; [now apply inner_step_break | assumption].
  - right. rewrite (inner_step_full st Hge).
    eexists. split; [reflexivity|]. split; [assumption|].
    destruct (magic_ok (buffer st) && checksum_ok (buffer st));
      cbn [take_frame drop_one buffer]; rewrite length_skipn;
      (split; [lia | eexists; reflexivity]).
Qed.

(** ** The inner loop terminates *)

Lemma inner_loop_fuel_done (fuel : nat) (st : rx_state) :
  (length (buffer st) < fuel)%nat ->
  exists st', inner_loop_fuel fuel st = Done st'
              /\ (length (buffer st') < 16)%nat
              /\ exists n, buffer st' = skipn n (buffer st).
Proof.
  revert st. induction fuel as [|fuel IH]; intros st Hfuel; [lia|].
  cbn [inner_loop_fuel].
  destruct (inner_step_cases st)
    as [[-> Hlt] | (st1 & -> & _ & Hshrink & n & Hn)].
  - exists st. repeat split; [assumption|]. now exists 0%nat.
  - destruct (IH st1 ltac:(lia)) as (st' & Hrun & Hshort & m & Hm).
    exists st'. repeat split; [assumption..|].
    exists (n + m)%nat. rewrite Hm, Hn, skipn_skipn. f_equal. lia.
Qed.

Lemma inner_loop_fuel_more (fuel fuel' : nat) (st st' : rx_state) :
  inner_loop_fuel fuel st = Done st' -> (fuel <= fuel')%nat ->
  inner_loop_fuel fuel' st = Done st'.
Proof.
  revert fuel' st. induction fuel as [|fuel IH]; intros fuel' st Hrun Hle;
    [discriminate|].
  destruct fuel' as [|fuel']; [lia|].
  cbn [inner_loop_fuel] in *.
  destruct (inner_step st); try assumption.
  apply IH; [assumption | lia].
Qed.

Lemma inner_loop_done (st : rx_state) :
  exists st', inner_loop st = Done st'
              /\ (length (buffer st') < 16)%nat
              /\ exists n, buffer st' = skipn n (buffer st).
Proof. apply inner_loop_fuel_done. lia. Qed.

(** The loop unfolds by one pass, as the [while True] it models. *)
Lemma inner_loop_unfold (st : rx_state) :
  inner_loop st =
    match inner_step st with
    | Break => Done st
    | Continue st' => inner_loop st'
    | Crash e => Crashed e st
    end.
Proof.
  unfold inner_loop at 1. cbn [inner_loop_fuel].
  destruct (inner_step_cases st)
    as [[-> _] | (st1 & -> & _ & Hshrink & _)]; [reflexivity|].
  destruct (inner_loop_done st1) as (st' & Hrun & _).
  rewrite Hrun. unfold inner_loop in Hrun.
  apply inner_loop_fuel_more with (1 := Hrun). lia.
Qed.

Lemma inner_loop_short (st : rx_state) :
  (length (buffer st) < 16)%nat -> inner_loop st = Done st.
Proof.
  intros H. rewrite inner_loop_unfold. now rewrite inner_step_break.
Qed.

(** ** Bytes arriving later do not change what a pass has decided *)

Lemma firstn_app_long {A : Type} (n : nat) (l more : list A) :
  (n <= length l)%nat -> firstn n (l ++ more) = firstn n l.
Proof.
  intros H. rewrite firstn_app.
  replace (n - length l)%nat with 0%nat by lia.
  cbn. apply app_nil_r.
Qed.

Lemma skipn_app_long {A : Type} (n : nat) (l more : list A) :
  (n <= length l)%nat -> skipn n (l ++ more) = skipn n l ++ more.
Proof.
  intros H. rewrite skipn_app.
  replace (n - length l)%nat with 0%nat by lia.
  reflexivity.
Qed.

Lemma firstn_exact {A : Type} (n : nat) (l more : list A) :
  length l = n -> firstn n (l ++ more) = l.
Proof.
  intros <-. rewrite firstn_app_long by lia. apply firstn_all.
Qed.

Lemma skipn_exact {A : Type} (n : nat) (l more : list A) :
  length l = n -> skipn n (l ++ more) = more.
Proof.
  intros <-. rewrite skipn_app_long by lia. now rewrite skipn_all.
Qed.

Lemma magic_ok_app (buf more : list Z) :
  (16 <= length buf)%nat -> magic_ok (buf ++ more) = magic_ok buf.
Proof.
  intros H. unfold magic_ok. now rewrite firstn_app_long by lia.
Qed.

Lemma checksum_ok_app (buf more : list Z) :
  (16 <= length buf)%nat -> checksum_ok (buf ++ more) = checksum_ok buf.
Proof.
  intros H. unfold checksum_ok.
  rewrite firstn_app_long by lia.
  now rewrite !app_nth1 by lia.
Qed.

Lemma inner_step_extend (st st' : rx_state) (more : list Z) :
  inner_step st = Continue st' ->
  inner_step (extend st more) = Continue (extend st' more).
Proof.
  intros Hstep.
  destruct (inner_step_cases st) as [[Hb _] | (st1 & Hc & Hlen & _)];
    [congruence|].
  rewrite inner_step_full in Hstep by assumption.
  rewrite inner_step_full by (cbn; rewrite length_app; lia).
  injection Hstep as <-. f_equal.
  cbn [extend buffer].
  rewrite magic_ok_app, checksum_ok_app by assumption.
  destruct (magic_ok (buffer st) && checksum_ok (buffer st));
    unfold take_frame, drop_one, extend; cbn [buffer packet_queue].
  - rewrite !skipn_app_long by lia.
    rewrite firstn_app_long; [reflexivity|].
    rewrite length_skipn. lia.
  - now rewrite skipn_app_long by lia.
Qed.

Lemma extend_extend (st : rx_state) (c1 c2 : list Z) :
  extend (extend st c1) c2 = extend st (c1 ++ c2).
Proof. unfold extend. cbn. now rewrite app_assoc. Qed.

Lemma extend_nil (st : rx_state) : extend st [] = st.
Proof. destruct st. unfold extend. cbn. now rewrite app_nil_r. Qed.

Lemma inner_loop_extend (st st1 : rx_state) (more : list Z) :
  inner_loop st = Done st1 ->
  inner_loop (extend st more) = inner_loop (extend st1 more).
Proof.
  remember (length (buffer st)) as n eqn:Hn.
  revert st Hn. induction n as [n IH] using lt_wf_ind. intros st Hn Hrun.
  rewrite inner_loop_unfold in Hrun.
  destruct (inner_step_cases st)
    as [[Hb _] | (st' & Hc & _ & Hshrink & _)].
  - rewrite Hb in Hrun. now injection Hrun as <-.
  - rewrite Hc in Hrun.
    rewrite (inner_loop_unfold (extend st more)).
    rewrite inner_step_extend with (1 := Hc).
    apply (IH (length (buffer st'))); [lia | reflexivity | assumption].
Qed.

(** Two reads in a row leave the receiver where one read of the joined
    bytes leaves it. *)
Lemma receiver_loop_join (c1 c2 : list Z) (ser : list read_result)
                         (st : rx_state) :
  receiver_loop (Data c1 :: Data c2 :: ser) st
  = receiver_loop (Data (c1 ++ c2) :: ser) st.
Proof.
  destruct c1 as [|x c1]; [reflexivity|].
  destruct c2 as [|y c2].
  - rewrite app_nil_r. cbn [receiver_loop].
    now destruct (inner_loop (extend st (x :: c1))).
  - cbn [receiver_loop app].
    destruct (inner_loop_done (extend st (x :: c1))) as (st1 & Hrun & _).
    rewrite Hrun.
    change (x :: c1 ++ y :: c2) with ((x :: c1) ++ y :: c2).
    rewrite <- extend_extend.
    now rewrite inner_loop_extend with (1 := Hrun).
Qed.

(** Reading a stream in chunks is reading it whole. *)
Lemma receiver_loop_chunks (chunks : list (list Z)) (st : rx_state) :
  (length (buffer st) < 16)%nat ->
  receiver_loop (map Data chunks) st = inner_loop (extend st (concat chunks)).
Proof.
  revert st. induction chunks as [|c chunks IH]; intros st Hshort.
  - cbn [map concat receiver_loop]. rewrite extend_nil. symmetry.
    now apply inner_loop_short.
  - cbn [map concat receiver_loop].
    destruct c as [|x c]; [now apply IH|].
    destruct (inner_loop_done (extend st (x :: c))) as (st1 & Hrun & Hs1 & _).
    rewrite Hrun, (IH st1 Hs1).
    rewrite <- extend_extend. symmetry.
    now apply inner_loop_extend.
Qed.

(** ** The loop body against the specification's [tryDecode] *)

Lemma inner_step_tryDecode (st : rx_state) :
  (16 <= length (buffer st))%nat ->
  inner_step st =
    Continue (match tryDecode (firstn 16 (buffer st)) with
              | Some payload => emit st payload
              | None => drop_one st
              end).
Proof.
  intros H. rewrite inner_step_full, tryDecode_checks by assumption.
  now destruct (magic_ok (buffer st) && checksum_ok (buffer st)).
Qed.

Lemma tryDecode_frame (p : list Z) :
  is_payload p -> tryDecode (frame_of p) = Some p.
Proof.
  intros [Hlen Hbytes]. rewrite frame_of_bytes by assumption.
  assert (Hcrc : word16 (crc16 (HEADER ++ p))).
  { apply crc16_word16, Forall_app. split; [apply header_bytes | assumption]. }
  unfold checksum_bytes.
  remember (crc16 (HEADER ++ p)) as c eqn:Hc.
  do 11 (destruct p as [|? p]; [discriminate Hlen|]).
  destruct p; [|discriminate Hlen].
  cbn [HEADER app] in Hc |- *. cbn [tryDecode].
  rewrite <- Hc, land255_shiftr8 by apply Hcrc.
  now rewrite !Z.eqb_refl.
Qed.

Lemma frame_step (p rest : list Z) (q : list (list Z)) :
  is_payload p ->
  inner_step {| buffer := frame_of p ++ rest; packet_queue := q |}
  = Continue {| buffer := rest; packet_queue := q ++ [p] |}.
Proof.
  intros Hp.
  assert (Hlen : length (frame_of p) = 16%nat).
  { rewrite frame_of_length by apply Hp. destruct Hp as [-> _]. reflexivity. }
  rewrite inner_step_tryDecode by (cbn; rewrite length_app; lia).
  cbn [buffer].
  rewrite (firstn_exact _ rest Hlen), tryDecode_frame by assumption.
  unfold emit. cbn [buffer packet_queue].
  now rewrite (skipn_exact _ rest Hlen).
Qed.

(** ** Streams of frames with junk around them *)

Lemma junk_clean_tail (x : Z) (junk rest : list Z) :
  junk_clean (x :: junk) rest -> junk_clean junk rest.
Proof.
  intros H i Hi Hlen. apply (H (S i)); [cbn; lia | exact Hlen].
Qed.

Lemma junk_step (x : Z) (junk rest : list Z) (q : list (list Z)) :
  junk_clean (x :: junk) rest ->
  (16 <= length ((x :: junk) ++ rest))%nat ->
  inner_step {| buffer := (x :: junk) ++ rest; packet_queue := q |}
  = Continue {| buffer := junk ++ rest; packet_queue := q |}.
Proof.
  intros Hclean Hlen.
  rewrite inner_step_tryDecode by exact Hlen.
  cbn [buffer].
  pose proof (Hclean 0%nat ltac:(cbn; lia) Hlen) as Hfront.
  change (skipn 0 ((x :: junk) ++ rest)) with ((x :: junk) ++ rest) in Hfront.
  now rewrite Hfront.
Qed.

(** Junk in front of at least one more frame is dropped byte by byte. *)
Lemma inner_loop_junk (junk rest : list Z) (q : list (list Z)) :
  junk_clean junk rest -> (16 <= length rest)%nat ->
  inner_loop {| buffer := junk ++ rest; packet_queue := q |}
  = inner_loop {| buffer := rest; packet_queue := q |}.
Proof.
  intros Hclean Hrest. induction junk as [|x junk IH]; [reflexivity|].
  rewrite inner_loop_unfold, junk_step;
    [| assumption | rewrite length_app; lia].
  apply IH. now apply junk_clean_tail with x.
Qed.

(** Junk after the last frame is dropped until fewer than 16 bytes are left. *)
Lemma inner_loop_trailing (junk : list Z) (q : list (list Z)) :
  junk_clean junk [] ->
  exists residual,
    inner_loop {| buffer := junk ++ []; packet_queue := q |}
    = Done {| buffer := residual; packet_queue := q |}.
Proof.
  intros Hclean. induction junk as [|x junk IH].
  - exists []. apply inner_loop_short. cbn. lia.
  - destruct (Nat.lt_ge_cases (length ((x :: junk) ++ [])) 16) as [Hlt|Hge].
    + eexists. now apply inner_loop_short.
    + destruct (IH (junk_clean_tail Hclean)) as (residual & Hrun).
      exists residual.
      rewrite inner_loop_unfold, junk_step by assumption.
      exact Hrun.
Qed.

Lemma wire_long (p junk : list Z) (segs : list (list Z * list Z)) :
  is_payload p -> (16 <= length (wire ((p, junk) :: segs)))%nat.
Proof.
  intros [Hlen Hbytes]. cbn [wire].
  rewrite length_app, frame_of_length by assumption. lia.
Qed.

Lemma inner_loop_stream (segs : list (list Z * list Z)) :
  forall (junk : list Z) (q : list (list Z)),
    Forall is_payload (map fst segs) ->
    no_spurious junk segs ->
    exists residual,
      inner_loop {| buffer := junk ++ wire segs; packet_queue := q |}
      = Done {| buffer := residual; packet_queue := q ++ map fst segs |}.
Proof.
  induction segs as [|[p junk'] segs IH]; intros junk q Hpay Hclean.
  - destruct Hclean as [Hclean _]. cbn [wire map] in *.
    rewrite (app_nil_r q). now apply inner_loop_trailing.
  - destruct Hclean as [Hclean Hrest].
    apply Forall_cons_iff in Hpay. destruct Hpay as [Hp Hpay]. cbn [fst] in Hp.
    rewrite inner_loop_junk by (assumption || now apply wire_long).
    cbn [wire]. rewrite inner_loop_unfold, frame_step by assumption.
    destruct (IH junk' (q ++ [p]) Hpay Hrest) as (residual & Hrun).
    exists residual. rewrite Hrun. cbn [map fst].
    now rewrite <- app_assoc.
Qed.

(** ** The comparison of one payload *)

Lemma byte_values_complete (b : Z) : is_byte b -> In b byte_values.
Proof.
  unfold is_byte, byte_values. intros Hb.
  rewrite <- (Z2Nat.id b) by lia.
  apply in_map, in_seq. lia.
Qed.

Lemma verdict_table :
  forallb (fun e => (e =? 0) || forallb (verdict_agrees e) byte_values)
          byte_values = true.
Proof. vm_compute. reflexivity. Qed.

Lemma verdict_exact (e r : Z) :
  is_byte e -> e <> 0 -> is_byte r ->
  within_tolerance (percent_error e r) = exact_within_tolerance e r.
Proof.
  intros He Hnz Hr.
  pose proof verdict_table as Htable.
  rewrite forallb_forall in Htable.
  specialize (Htable e (byte_values_complete He)).
  apply orb_true_iff in Htable. destruct Htable as [Hz|Hrow]; [lia|].
  rewrite forallb_forall in Hrow.
  specialize (Hrow r (byte_values_complete Hr)).
  now apply eqb_prop in Hrow.
Qed.

Lemma getitem_nth (s : list Z) (idx : nat) :
  (idx < length s)%nat -> getitem s idx = Ok (nth idx s 0).
Proof.
  intros H. unfold getitem. now rewrite (nth_error_nth' s 0 H).
Qed.

Section SessionFacts.

Variable expected_data : list Z.
Variable packets_to_send : nat.

Lemma compare_field_ok (recv_data : list Z) (idx : nat) :
  (idx < length expected_data)%nat -> (idx < length recv_data)%nat ->
  nth idx expected_data 0 <> 0 ->
  compare_field expected_data recv_data idx
  = Ok (field_record idx (nth idx expected_data 0) (nth idx recv_data 0)).
Proof.
  intros He Hr Hnz. unfold compare_field.
  rewrite !getitem_nth by assumption. cbn [bind].
  unfold Float64.truediv.
  destruct (nth idx expected_data 0 =? 0) eqn:E; [lia|]. reflexivity.
Qed.

Lemma compare_fields_ok (recv_data : list Z) (idxs : list nat) :
  forall acc,
    Forall (fun idx => (idx < length expected_data)%nat
                       /\ (idx < length recv_data)%nat
                       /\ nth idx expected_data 0 <> 0) idxs ->
    compare_fields expected_data recv_data idxs acc
    = Ok (acc ++ map (fun idx => field_record idx (nth idx expected_data 0)
                                               (nth idx recv_data 0)) idxs).
Proof.
  induction idxs as [|idx idxs IH]; intros acc Hall; cbn [compare_fields map].
  - now rewrite app_nil_r.
  - apply Forall_cons_iff in Hall. destruct Hall as [(He & Hr & Hnz) Hall].
    rewrite compare_field_ok by assumption. cbn [bind].
    rewrite IH by assumption. now rewrite <- app_assoc.
Qed.

Lemma compare_fields_length (recv_data : list Z) (idxs : list nat) :
  forall acc results,
    compare_fields expected_data recv_data idxs acc = Ok results ->
    length results = (length acc + length idxs)%nat.
Proof.
  induction idxs as [|idx idxs IH]; intros acc results H; cbn [compare_fields] in H.
  - injection H as <-. cbn. lia.
  - destruct (compare_field expected_data recv_data idx); [|discriminate].
    cbn [bind] in H. apply IH in H. rewrite H, length_app. cbn. lia.
Qed.

Hypothesis expected_length : length expected_data = 11%nat.
Hypothesis expected_nonzero : Forall (fun e => e <> 0) expected_data.

Lemma compare_payload_ok (recv_data : list Z) (acc : list Cmp.t) :
  length recv_data = 11%nat ->
  compare_fields expected_data recv_data (range 11) acc
  = Ok (acc ++ payload_records expected_data recv_data).
Proof.
  intros Hr. apply compare_fields_ok.
  apply Forall_forall. intros idx Hin.
  apply in_seq in Hin. repeat split; try lia.
  rewrite Forall_forall in expected_nonzero.
  apply expected_nonzero, nth_In. lia.
Qed.

Lemma consume_items (gets : list get_result) :
  forall s,
    Forall (fun p => length p = 11%nat) (items gets) ->
    (received_packets s + length (items gets))%nat = packets_to_send ->
    exists s',
      consume expected_data packets_to_send gets s = Finished s'
      /\ received_packets s' = packets_to_send
      /\ results_all s'
         = results_all s ++ flat_map (payload_records expected_data) (items gets).
Proof.
  induction gets as [|g gets IH]; intros s Hlen Hcount; cbn [consume items] in *.
  - replace (received_packets s <? packets_to_send)%nat with false
      by (symmetry; apply Nat.ltb_ge; cbn in Hcount; lia).
    exists s. cbn. rewrite app_nil_r. repeat split. cbn in Hcount. lia.
  - destruct g as [recv_data|].
    + cbn [items length] in *.
      replace (received_packets s <? packets_to_send)%nat with true
        by (symmetry; apply Nat.ltb_lt; lia).
      apply Forall_cons_iff in Hlen. destruct Hlen as [Hr Hlen].
      cbn [results_all]. rewrite compare_payload_ok by assumption.
      cbn [received_packets stdout].
      edestruct IH as (s' & Hrun & Hn & Hres);
        [exact Hlen | | exists s'; split; [exact Hrun|]].
      * cbn [received_packets]. lia.
      * split; [assumption|]. rewrite Hres. cbn [results_all flat_map].
        now rewrite <- app_assoc.
    + destruct (received_packets s <? packets_to_send)%nat eqn:E.
      * destruct (IH (print "Timeout waiting for packet"%string s) Hlen Hcount)
          as (s' & Hrun & Hn & Hres).
        exists s'. repeat split; assumption.
      * apply Nat.ltb_ge in E.
        assert (Hnone : items gets = []) by (apply length_zero_iff_nil; lia).
        exists s. rewrite Hnone. cbn. rewrite app_nil_r. repeat split. lia.
Qed.

End SessionFacts.

(** ** Timeouts and the end of the consumption loop *)

Section LoopFacts.

Variable expected_data : list Z.
Variable packets_to_send : nat.

Lemma consume_timeout (gets : list get_result) (s : session) :
  (received_packets s < packets_to_send)%nat ->
  consume expected_data packets_to_send (Empty :: gets) s
  = consume expected_data packets_to_send gets (print TIMEOUT_LINE s).
Proof.
  intros H. cbn [consume]. apply Nat.ltb_lt in H. now rewrite H.
Qed.

Lemma consume_stalled (k : nat) :
  forall s,
    (received_packets s < packets_to_send)%nat ->
    consume expected_data packets_to_send (repeat Empty k) s
    = Waiting {| received_packets := received_packets s;
                 results_all := results_all s;
                 stdout := stdout s ++ repeat TIMEOUT_LINE k |}.
Proof.
  induction k as [|k IH]; intros s H.
  - cbn [repeat consume]. apply Nat.ltb_lt in H. rewrite H.
    rewrite app_nil_r. now destruct s.
  - cbn [repeat]. rewrite consume_timeout by assumption.
    rewrite IH by assumption. unfold print. cbn [received_packets results_all stdout].
    now rewrite <- app_assoc.
Qed.

Lemma consume_finished (gets : list get_result) :
  forall s s',
    consume expected_data packets_to_send gets s = Finished s' ->
    (received_packets s <= packets_to_send)%nat ->
    received_packets s' = packets_to_send
    /\ exists consumed rest,
        gets = consumed ++ rest
        /\ length (items consumed) = (packets_to_send - received_packets s)%nat
        /\ length (results_all s')
           = (length (results_all s)
              + 11 * (packets_to_send - received_packets s))%nat
        /\ stdout s' = stdout s ++ repeat TIMEOUT_LINE (timeouts consumed).
Proof.
  induction gets as [|g gets IH]; intros s s' Hrun Hle; cbn [consume] in Hrun;
    destruct (received_packets s <? packets_to_send)%nat eqn:E;
    try discriminate;
    try (apply Nat.ltb_ge in E; injection Hrun as <-;
         split; [lia|]; eexists [], _; cbn;
         rewrite app_nil_r;
         replace (packets_to_send - received_packets s)%nat with 0%nat by lia;
         repeat split; lia).
  apply Nat.ltb_lt in E. destruct g as [recv_data|].
  - destruct (compare_fields expected_data recv_data (range 11) _) as [res|]
      eqn:Hcmp; [|discriminate].
    apply compare_fields_length in Hcmp. unfold range in Hcmp.
    rewrite length_seq in Hcmp. cbn [results_all] in Hcmp.
    apply IH in Hrun; [|cbn; lia].
    cbn [received_packets results_all stdout] in Hrun.
    destruct Hrun as (Hn & consumed & rest & -> & Hitems & Hres & Hout).
    split; [assumption|].
    exists (Item recv_data :: consumed), rest. cbn [items timeouts length app].
    repeat split; [lia | lia | assumption].
  - apply IH in Hrun; [|cbn; lia].
    cbn [print received_packets results_all stdout] in Hrun.
    destruct Hrun as (Hn & consumed & rest & -> & Hitems & Hres & Hout).
    split; [assumption|].
    exists (Empty :: consumed), rest. cbn [items timeouts app repeat].
    repeat split; [assumption | assumption |].
    rewrite Hout, <- app_assoc. reflexivity.
Qed.

Lemma send_packets_ok (frame : list Z) (n : nat) :
  create_packet expected_data = Ok frame ->
  forall written,
    send_packets expected_data n written = Ok (written ++ repeat frame n).
Proof.
  intros Hframe. induction n as [|n IH]; intros written; cbn [send_packets repeat].
  - now rewrite app_nil_r.
  - rewrite Hframe. cbn [bind]. rewrite IH, <- app_assoc. reflexivity.
Qed.

End LoopFacts.

(** ** Position of a record in the result list *)

Lemma payload_records_length (expected_data recv_data : list Z) :
  length (payload_records expected_data recv_data) = 11%nat.
Proof. unfold payload_records, range. now rewrite length_map, length_seq. Qed.

Lemma flat_map_blocks {A B : Type} (f : A -> list B) (k : nat) (d : A) :
  (forall x, length (f x) = k) ->
  forall (l : list A) (i j : nat),
    (i < length l)%nat -> (j < k)%nat ->
    nth_error (flat_map f l) (k * i + j) = nth_error (f (nth i l d)) j.
Proof.
  intros Hk. induction l as [|x l IH]; intros i j Hi Hj; [cbn in Hi; lia|].
  cbn [flat_map]. destruct i as [|i].
  - rewrite Nat.mul_0_r, Nat.add_0_l. cbn [nth].
    apply nth_error_app1. rewrite Hk. exact Hj.
  - rewrite nth_error_app2 by (rewrite Hk; nia).
    rewrite Hk. cbn [nth].
    replace (k * S i + j - k)%nat with (k * i + j)%nat by nia.
    apply IH; [cbn in Hi; lia | assumption].
Qed.

Lemma flat_map_blocks_length {A B : Type} (f : A -> list B) (k : nat) :
  (forall x, length (f x) = k) ->
  forall l : list A, length (flat_map f l) = (k * length l)%nat.
Proof.
  intros Hk. induction l as [|x l IH]; cbn [flat_map length]; [lia|].
  rewrite length_app, Hk, IH. nia.
Qed.

Lemma payload_records_nth (expected_data recv_data : list Z) (j : nat) :
  (j < 11)%nat ->
  nth_error (payload_records expected_data recv_data) j
  = Some (field_record j (nth j expected_data 0) (nth j recv_data 0)).
Proof.
  intros Hj. unfold payload_records, range.
  rewrite nth_error_map, nth_error_nth' with (d := 0%nat)
    by (rewrite length_seq; lia).
  rewrite seq_nth by lia. reflexivity.
Qed.

Lemma tryDecode_length (c p : list Z) :
  tryDecode c = Some p -> length c = 16%nat.
Proof.
  intros H.
  do 16 (destruct c as [|? c]; [discriminate H|]).
  destruct c; [reflexivity | discriminate H].
Qed.

Lemma tryDecode_short (buf : list Z) :
  (length buf < 16)%nat -> tryDecode (firstn 16 buf) = None.
Proof.
  intros H. destruct (tryDecode (firstn 16 buf)) as [p|] eqn:E; [|reflexivity].
  apply tryDecode_length in E. rewrite length_firstn in E. lia.
Qed.

Lemma decoded_from_skipn (n : nat) (stream p : list Z) :
  decoded_from (skipn n stream) p -> decoded_from stream p.
Proof.
  intros (pre & window & post & Hs & Hd).
  exists (firstn n stream ++ pre), window, post. split; [|exact Hd].
  rewrite <- app_assoc, <- Hs. symmetry. apply firstn_skipn.
Qed.

Lemma inner_loop_trace (st : rx_state) :
  exists residual new,
    inner_loop st
    = Done {| buffer := residual; packet_queue := packet_queue st ++ new |}
    /\ Forall (decoded_from (buffer st)) new
    /\ (16 * length new + length residual <= length (buffer st))%nat.
Proof.
  remember (length (buffer st)) as n eqn:Hn.
  revert st Hn. induction n as [n IH] using lt_wf_ind. intros st Hn.
  rewrite inner_loop_unfold.
  destruct (Nat.lt_ge_cases (length (buffer st)) 16) as [Hlt|Hge].
  - rewrite inner_step_break by assumption.
    exists (buffer st), []. rewrite app_nil_r. destruct st.
    cbn [buffer packet_queue length] in *. repeat split; [constructor | lia].
  - rewrite inner_step_tryDecode by assumption.
    destruct (tryDecode (firstn 16 (buffer st))) as [p|] eqn:Hdec.
    + destruct (IH (length (buffer (emit st p)))) with (st := emit st p)
        as (residual & new & Hrun & Hall & Hcount);
        [cbn [emit buffer]; rewrite length_skipn; lia | reflexivity |].
      cbn [emit buffer packet_queue] in Hrun, Hall, Hcount.
      rewrite length_skipn in Hcount.
      exists residual, (p :: new). rewrite Hrun, <- app_assoc.
      split; [reflexivity|]. split; [|cbn [length]; lia].
      constructor.
      * exists [], (firstn 16 (buffer st)), (skipn 16 (buffer st)).
        split; [|exact Hdec]. cbn [app]. symmetry. apply firstn_skipn.
      * eapply Forall_impl; [|exact Hall].
        intros p'. apply decoded_from_skipn.
    + destruct (IH (length (buffer (drop_one st)))) with (st := drop_one st)
        as (residual & new & Hrun & Hall & Hcount);
        [cbn [drop_one buffer]; rewrite length_skipn; lia | reflexivity |].
      cbn [drop_one buffer packet_queue] in Hrun, Hall, Hcount.
      rewrite length_skipn in Hcount.
      exists residual, new. rewrite Hrun.
      split; [reflexivity|]. split; [|lia].
      eapply Forall_impl; [|exact Hall].
      intros p'. apply decoded_from_skipn.
Qed.

(** Whole frames back to back are all taken; what follows them, if shorter
    than a frame, is what stays in the buffer. *)
Lemma inner_loop_frames_tail (ps : list (list Z)) (tail : list Z) :
  forall q,
    Forall is_payload ps -> (length tail < 16)%nat ->
    inner_loop {| buffer := concat (map frame_of ps) ++ tail;
                  packet_queue := q |}
    = Done {| buffer := tail; packet_queue := q ++ ps |}.
Proof.
  induction ps as [|p ps IH]; intros q Hps Htail; cbn [map concat app].
  - rewrite app_nil_r. now apply inner_loop_short.
  - apply Forall_cons_iff in Hps. destruct Hps as [Hp Hps].
    rewrite <- app_assoc, inner_loop_unfold, frame_step by assumption.
    rewrite IH by assumption. now rewrite <- app_assoc.
Qed.

(** * The claims *)

(** C1. Round trip: for every payload of exactly 11 bytes, [create_packet]
    returns a 16-byte frame on which the receiver's checks succeed: its bytes
    0..2 are the magic, the CRC-16 of its bytes 0..13 is the little-endian
    value of its bytes 14..15, its bytes 3..13 are the payload; so
    [tryDecode] returns the payload, and a pass of the receive loop over a
    buffer starting with the frame puts exactly that payload in the queue
    and removes the frame. *)
Theorem C1_roundtrip (P : list Z) :
  length P = 11%nat -> Forall is_byte P ->
  exists frame,
    create_packet P = Ok frame
    /\ length frame = 16%nat
    /\ slice 0 3 frame = HEADER
    /\ struct_unpack_H (slice 14 16 frame) = Ok (crc16 (slice 0 14 frame))
    /\ slice 3 14 frame = P
    /\ tryDecode frame = Some P
    /\ forall rest q,
         inner_step {| buffer := frame ++ rest; packet_queue := q |}
         = Continue {| buffer := rest; packet_queue := q ++ [P] |}.
Proof.
  intros Hlen Hbytes.
  assert (Hp : is_payload P) by (split; assumption).
  exists (frame_of P).
  assert (Hframe : create_packet P = Ok (frame_of P)).
  { rewrite create_packet_bytes, frame_of_bytes by assumption. reflexivity. }
  split; [exact Hframe|].
  split; [rewrite frame_of_length, Hlen by assumption; reflexivity|].
  pose proof (tryDecode_frame Hp) as Hdec.
  pose proof (fun rest q => frame_step rest q Hp) as Hstep.
  repeat split; try assumption.
  - rewrite frame_of_bytes by assumption. reflexivity.
  - rewrite frame_of_bytes by assumption. unfold checksum_bytes.
    assert (Hcrc : word16 (crc16 (HEADER ++ P))).
    { apply crc16_word16, Forall_app. split; [apply header_bytes | assumption]. }
    remember (crc16 (HEADER ++ P)) as c eqn:Hc.
    do 11 (destruct P as [|? P]; [discriminate Hlen|]).
    destruct P; [|discriminate Hlen].
    cbn [HEADER app] in Hc |- *. unfold slice.
    cbn [Nat.sub skipn firstn struct_unpack_H].
    rewrite <- Hc, land255_shiftr8 by apply Hcrc. reflexivity.
  - rewrite frame_of_bytes by assumption.
    do 11 (destruct P as [|? P]; [discriminate Hlen|]).
    destruct P; [|discriminate Hlen]. reflexivity.
Qed.

Lemma C1_roundtrip_witness :
  length [10; 20; 30; 40; 50; 60; 70; 80; 90; 100; 110] = 11%nat
  /\ Forall is_byte [10; 20; 30; 40; 50; 60; 70; 80; 90; 100; 110]
  /\ exists frame,
       create_packet [10; 20; 30; 40; 50; 60; 70; 80; 90; 100; 110] = Ok frame
       /\ length frame = 16%nat
       /\ slice 0 3 frame = HEADER
       /\ struct_unpack_H (slice 14 16 frame) = Ok (crc16 (slice 0 14 frame))
       /\ slice 3 14 frame = [10; 20; 30; 40; 50; 60; 70; 80; 90; 100; 110]
       /\ tryDecode frame = Some [10; 20; 30; 40; 50; 60; 70; 80; 90; 100; 110]
       /\ forall rest q,
            inner_step {| buffer := frame ++ rest; packet_queue := q |}
            = Continue {| buffer := rest;
                          packet_queue :=
                            q ++ [[10; 20; 30; 40; 50; 60; 70; 80; 90; 100; 110]] |}.
Proof.
  assert (Hb : Forall is_byte [10; 20; 30; 40; 50; 60; 70; 80; 90; 100; 110])
    by (repeat constructor; unfold is_byte; lia).
  split; [reflexivity|]. split; [exact Hb|].
  apply (C1_roundtrip (P := [10; 20; 30; 40; 50; 60; 70; 80; 90; 100; 110]));
    [reflexivity | exact Hb].
Defined.

(** C2. Resynchronisation: take any sequence of valid frames with junk of
    any length before the first frame, between frames and after the last
    one, such that no 16-byte window starting on a junk byte is a valid
    frame; however the port cuts that stream into reads, the receiver ends
    with exactly the payloads of the frames added to the queue, in their
    order, each once. *)
Theorem C2_resync_correctness (junk : list Z) (segs : list (list Z * list Z))
                              (chunks : list (list Z)) (q : list (list Z)) :
  Forall is_payload (map fst segs) ->
  no_spurious junk segs ->
  concat chunks = junk ++ wire segs ->
  exists residual,
    serial_receiver (map Data chunks) q
    = Done {| buffer := residual; packet_queue := q ++ map fst segs |}
    /\ (length residual < 16)%nat.
Proof.
  intros Hpay Hclean Hstream. unfold serial_receiver.
  rewrite receiver_loop_chunks by (cbn; lia).
  unfold extend. cbn [buffer packet_queue app]. rewrite Hstream.
  destruct (inner_loop_stream segs junk q Hpay Hclean) as (residual & Hrun).
  exists residual. split; [exact Hrun|].
  destruct (inner_loop_done {| buffer := junk ++ wire segs; packet_queue := q |})
    as (st' & Hrun' & Hshort & _).
  rewrite Hrun in Hrun'. injection Hrun' as <-. exact Hshort.
Qed.

Lemma C2_resync_correctness_witness :
  Forall is_payload (map fst sample_segs)
  /\ no_spurious sample_junk sample_segs
  /\ concat sample_chunks = sample_junk ++ wire sample_segs
  /\ exists residual,
       serial_receiver (map Data sample_chunks) []
       = Done {| buffer := residual;
                 packet_queue := [] ++ map fst sample_segs |}
       /\ (length residual < 16)%nat.
Proof.
  assert (Hpay : Forall is_payload (map fst sample_segs)).
  { repeat constructor; unfold is_byte; lia. }
  assert (Hclean : no_spurious sample_junk sample_segs).
  { repeat split; intros i Hi Hlen.
    - do 4 (destruct i as [|i]; [vm_compute; reflexivity|]).
      exfalso. cbn in Hi. lia.
    - do 2 (destruct i as [|i]; [vm_compute; reflexivity|]).
      exfalso. cbn in Hi. lia.
    - do 3 (destruct i as [|i]; [vm_compute; reflexivity|]).
      exfalso. cbn in Hi. lia. }
  assert (Hstream : concat sample_chunks = sample_junk ++ wire sample_segs).
  { vm_compute. reflexivity. }
  split; [exact Hpay|]. split; [exact Hclean|]. split; [exact Hstream|].
  exact (C2_resync_correctness sample_junk sample_segs sample_chunks []
           Hpay Hclean Hstream).
Defined.

(** C3. Resync step policy: with at least 16 bytes buffered, a pass of the
    inner loop whose candidate fails validation, which is the case exactly
    when the magic or the checksum is wrong, removes exactly the leading
    byte and leaves the queue as it is; a pass whose candidate validates
    appends its payload (bytes 3..13) to the queue and removes exactly the
    16 leading bytes. *)
Theorem C3_resync_step_policy (st : rx_state) :
  (16 <= length (buffer st))%nat ->
  (tryDecode (firstn 16 (buffer st)) = None
   <-> (firstn 3 (buffer st) <> HEADER
        \/ crc16 (firstn 14 (buffer st))
           <> nth 14 (buffer st) 0 + 256 * nth 15 (buffer st) 0))
  /\ (tryDecode (firstn 16 (buffer st)) = None ->
      inner_step st
      = Continue {| buffer := skipn 1 (buffer st);
                    packet_queue := packet_queue st |}
      /\ length (skipn 1 (buffer st)) = (length (buffer st) - 1)%nat)
  /\ (forall payload,
        tryDecode (firstn 16 (buffer st)) = Some payload ->
        payload = firstn 11 (skipn 3 (buffer st))
        /\ inner_step st
           = Continue {| buffer := skipn 16 (buffer st);
                         packet_queue := packet_queue st ++ [payload] |}
        /\ length (skipn 16 (buffer st)) = (length (buffer st) - 16)%nat).
Proof.
  intros Hlen.
  rewrite inner_step_tryDecode by assumption.
  rewrite tryDecode_checks by assumption.
  split; [|split].
  - unfold magic_ok, checksum_ok.
    destruct (list_eqb (firstn 3 (buffer st)) HEADER) eqn:Em.
    + apply list_eqb_eq in Em.
      destruct (crc16 (firstn 14 (buffer st))
                =? nth 14 (buffer st) 0 + 256 * nth 15 (buffer st) 0) eqn:Ec;
        cbn [andb].
      * apply Z.eqb_eq in Ec. split; [discriminate|]. intros [H|H]; contradiction.
      * apply Z.eqb_neq in Ec. split; [now right | reflexivity].
    + cbn [andb]. split; [|reflexivity]. intros _. left. intros H.
      apply list_eqb_eq in H. congruence.
  - destruct (magic_ok (buffer st) && checksum_ok (buffer st)); [discriminate|].
    intros _. split; [reflexivity | apply length_skipn].
  - intros payload.
    destruct (magic_ok (buffer st) && checksum_ok (buffer st)); [|discriminate].
    intros [= <-]. repeat split. apply length_skipn.
Qed.

Lemma C3_resync_step_policy_witness :
  (16 <= length (0%Z :: frame_of sample_payload))%nat
  /\ inner_step {| buffer := 0 :: frame_of sample_payload; packet_queue := [] |}
     = Continue {| buffer := frame_of sample_payload; packet_queue := [] |}
  /\ inner_step {| buffer := frame_of sample_payload ++ [0]; packet_queue := [] |}
     = Continue {| buffer := [0]; packet_queue := [sample_payload] |}.
Proof.
  assert (Hlen : (16 <= length (0%Z :: frame_of sample_payload))%nat)
    by (vm_compute; lia).
  assert (Hlen' : (16 <= length (frame_of sample_payload ++ [0%Z]))%nat)
    by (vm_compute; lia).
  split; [exact Hlen|]. split.
  - exact (proj1 (proj1 (proj2
             (C3_resync_step_policy
                {| buffer := 0 :: frame_of sample_payload; packet_queue := [] |}
                Hlen))
             eq_refl)).
  - exact (proj1 (proj2 (proj2 (proj2
             (C3_resync_step_policy
                {| buffer := frame_of sample_payload ++ [0]; packet_queue := [] |}
                Hlen'))
             sample_payload eq_refl))).
Defined.

(** C4. The checksum is the CRC-16 Modbus reference: on every byte sequence,
    the empty one included, [crc16] returns the accumulator that the
    reference computation ends with (start at 0xFFFF; per byte, XOR into the
    low byte, then eight times shift right by one and XOR with 0xA001 when
    the bit shifted out was 1), and that accumulator fits in 16 bits.  As a
    function of the bytes alone it is total and deterministic. *)
Theorem C4_crc16_is_modbus_reference (data : list Z) :
  Forall is_byte data ->
  crc16 data = crc16_modbus_ref data
  /\ 0 <= crc16 data < 65536
  /\ crc16 [] = 0xFFFF.
Proof.
  intros Hd. split; [|split].
  - unfold crc16, crc16_modbus_ref. symmetry. now apply ref_from_fold.
  - now apply crc16_word16.
  - reflexivity.
Qed.

Lemma C4_crc16_is_modbus_reference_witness :
  Forall is_byte [49; 50; 51; 52; 53; 54; 55; 56; 57]
  /\ crc16 [49; 50; 51; 52; 53; 54; 55; 56; 57]
     = crc16_modbus_ref [49; 50; 51; 52; 53; 54; 55; 56; 57]
  /\ 0 <= crc16 [49; 50; 51; 52; 53; 54; 55; 56; 57] < 65536
  /\ crc16 [] = 0xFFFF.
Proof.
  assert (Hb : Forall is_byte [49; 50; 51; 52; 53; 54; 55; 56; 57])
    by (repeat constructor; unfold is_byte; lia).
  split; [exact Hb|].
  exact (C4_crc16_is_modbus_reference Hb).
Defined.

(** C5, as stated, fails: a payload of three bytes is not of length 11, and
    [create_packet] returns a frame of eight bytes for it. *)
Lemma C5_counterexample :
  length [1; 2; 3] <> 11%nat
  /\ create_packet [1; 2; 3] = Ok [0x24; 0x46; 0x53; 1; 2; 3; 0x8E; 0xD5].
Proof. split; [discriminate | vm_compute; reflexivity]. Qed.

(** C5, amended. [create_packet] does not look at the length of its
    payload: for byte values it returns the magic, the payload and the two
    checksum bytes, a frame of five bytes more than the payload, whatever
    the length; it raises only [ValueError], and exactly when some element
    is not a byte value. *)
Theorem C5_create_packet_any_length (data_bytes : list Z) :
  (Forall is_byte data_bytes ->
   create_packet data_bytes
   = Ok (HEADER ++ data_bytes ++ checksum_bytes data_bytes)
   /\ forall frame,
        create_packet data_bytes = Ok frame ->
        length frame = (length data_bytes + 5)%nat)
  /\ (~ Forall is_byte data_bytes -> create_packet data_bytes = Raise ValueError).
Proof.
  split.
  - intros Hb. rewrite create_packet_bytes by assumption.
    split; [reflexivity|]. intros frame Hframe.
    assert (Hf : frame = HEADER ++ data_bytes ++ checksum_bytes data_bytes)
      by congruence.
    rewrite Hf, !length_app. cbn. lia.
  - intros Hb. unfold create_packet. now rewrite bytes_not_ok.
Qed.

Lemma C5_create_packet_any_length_witness :
  Forall is_byte [1; 2; 3]
  /\ create_packet [1; 2; 3] = Ok (HEADER ++ [1; 2; 3] ++ checksum_bytes [1; 2; 3])
  /\ ~ Forall is_byte [1; 256; 3]
  /\ create_packet [1; 256; 3] = Raise ValueError.
Proof.
  assert (Hb : Forall is_byte [1; 2; 3])
    by (repeat constructor; unfold is_byte; lia).
  assert (Hn : ~ Forall is_byte [1; 256; 3]).
  { intros H. inversion H as [|? ? _ H']. inversion H' as [|? ? Hbad _].
    unfold is_byte in Hbad. lia. }
  split; [exact Hb|].
  split; [exact (proj1 (proj1 (C5_create_packet_any_length [1; 2; 3]) Hb))|].
  split; [exact Hn|].
  exact (proj2 (C5_create_packet_any_length [1; 256; 3]) Hn).
Defined.

(** C6. Per-field comparison: for a received byte [r] and a non-zero
    expected byte [e] at a field index, the comparison yields a record whose
    error is [(r - e) / e * 100] computed in binary64 and whose verdict is
    PASS if the absolute value of that error is at most 1 and FAIL
    otherwise; the verdict is the one exact arithmetic gives, PASS exactly
    when [100 * |r - e| <= e]. *)
Theorem C6_field_comparison (expected_data recv_data : list Z) (idx : nat)
                            (e r : Z) :
  nth_error expected_data idx = Some e ->
  nth_error recv_data idx = Some r ->
  is_byte e -> is_byte r -> e <> 0 ->
  exists record,
    compare_field expected_data recv_data idx = Ok record
    /\ Cmp.id record = Z.of_nat idx + 1
    /\ Cmp.expected record = e
    /\ Cmp.received record = r
    /\ Cmp.error record
       = Float64.mul
           (Float64.div (Float64.of_int (r - e)) (Float64.of_int e))
           (Float64.of_int 100)
    /\ Cmp.status record
       = (if Float64.leb (Float64.abs (Cmp.error record)) (Float64.of_int 1)
          then PASS else FAIL)
    /\ (Cmp.status record = PASS <-> 100 * Z.abs (r - e) <= e)
    /\ (Cmp.status record = FAIL <-> e < 100 * Z.abs (r - e)).
Proof.
  intros He Hr Hbe Hbr Hnz.
  assert (Hie : (idx < length expected_data)%nat)
    by (apply nth_error_Some; congruence).
  assert (Hir : (idx < length recv_data)%nat)
    by (apply nth_error_Some; congruence).
  assert (Hne : nth idx expected_data 0 = e) by now apply nth_error_nth.
  assert (Hnr : nth idx recv_data 0 = r) by now apply nth_error_nth.
  exists (field_record idx e r).
  split; [rewrite compare_field_ok, Hne, Hnr by (assumption || lia); reflexivity|].
  cbn [field_record Cmp.id Cmp.expected Cmp.received Cmp.error Cmp.status].
  repeat (split; [reflexivity|]).
  rewrite (verdict_exact Hbe Hnz Hbr). unfold exact_within_tolerance.
  destruct (100 * Z.abs (r - e) <=? e) eqn:E.
  - apply Z.leb_le in E. repeat split; try (intros _; assumption || reflexivity);
      try discriminate. intros H. lia.
  - apply Z.leb_gt in E. repeat split; try (intros _; assumption || reflexivity);
      try discriminate. intros H. lia.
Qed.

Lemma C6_field_comparison_witness :
  nth_error sample_payload 10 = Some 110
  /\ nth_error [10; 20; 30; 40; 50; 60; 70; 80; 90; 100; 115] 10 = Some 115
  /\ is_byte 110 /\ is_byte 115 /\ 110 <> 0
  /\ exists record,
       compare_field sample_payload
         [10; 20; 30; 40; 50; 60; 70; 80; 90; 100; 115] 10 = Ok record
       /\ Cmp.id record = 11
       /\ Cmp.status record = FAIL.
Proof.
  assert (Hbe : is_byte 110) by (unfold is_byte; lia).
  assert (Hbr : is_byte 115) by (unfold is_byte; lia).
  assert (Hnz : 110 <> 0) by lia.
  repeat (split; [first [reflexivity | assumption]|]).
  destruct (C6_field_comparison
              sample_payload [10; 20; 30; 40; 50; 60; 70; 80; 90; 100; 115]
              10 eq_refl eq_refl Hbe Hbr Hnz)
    as (record & Hrun & Hid & _ & _ & _ & _ & _ & Hfail).
  exists record. split; [exact Hrun|]. split; [exact Hid|].
  apply Hfail. vm_compute. reflexivity.
Defined.

(** C7. Record count and order: when the session sends N frames and the
    queue delivers exactly N validated payloads (timeouts may come in
    between), the consumption loop ends with 11 * N records; the record at
    position [11 * i + j] belongs to the payload that arrived i-th and to
    its field j, and carries the 1-based field index [j + 1]. *)
Theorem C7_record_count_and_order (expected_data : list Z)
                                  (payloads : list (list Z))
                                  (gets : list get_result) :
  length expected_data = 11%nat ->
  Forall (fun e => is_byte e /\ e <> 0) expected_data ->
  Forall is_payload payloads ->
  items gets = payloads ->
  exists frame s,
    create_packet expected_data = Ok frame
    /\ run_session expected_data (length payloads) gets
       = Ok (repeat frame (length payloads), Finished s)
    /\ received_packets s = length payloads
    /\ length (results_all s) = (11 * length payloads)%nat
    /\ forall i j,
         (i < length payloads)%nat -> (j < 11)%nat ->
         exists record,
           nth_error (results_all s) (11 * i + j) = Some record
           /\ Cmp.id record = Z.of_nat j + 1
           /\ Cmp.expected record = nth j expected_data 0
           /\ Cmp.received record = nth j (nth i payloads []) 0
           /\ record = field_record j (nth j expected_data 0)
                                    (nth j (nth i payloads []) 0).
Proof.
  intros Hlen Hexp Hpay Hitems.
  assert (Hbytes : Forall is_byte expected_data).
  { eapply Forall_impl; [|exact Hexp]. now intros e [He _]. }
  assert (Hnz : Forall (fun e => e <> 0) expected_data).
  { eapply Forall_impl; [|exact Hexp]. now intros e [_ He]. }
  assert (Hlens : Forall (fun p => length p = 11%nat) (items gets)).
  { rewrite Hitems. eapply Forall_impl; [|exact Hpay]. now intros p [Hp _]. }
  destruct (consume_items (packets_to_send := length payloads)
              Hlen Hnz gets session_start Hlens)
    as (s & Hrun & Hn & Hres); [cbn; now rewrite Hitems|].
  cbn [session_start results_all app] in Hres. rewrite Hitems in Hres.
  exists (HEADER ++ expected_data ++ checksum_bytes expected_data), s.
  split; [now apply create_packet_bytes|].
  split.
  { unfold run_session.
    rewrite send_packets_ok
      with (frame := HEADER ++ expected_data ++ checksum_bytes expected_data)
      by now apply create_packet_bytes.
    cbn [bind app]. now rewrite Hrun. }
  split; [exact Hn|].
  split.
  { rewrite Hres. apply flat_map_blocks_length. intros p.
    apply payload_records_length. }
  intros i j Hi Hj. eexists. split.
  { rewrite Hres.
    rewrite flat_map_blocks with (d := @nil Z)
      by (try (intros p; apply payload_records_length); assumption).
    now apply payload_records_nth. }
  repeat split.
Qed.

Lemma C7_record_count_and_order_witness :
  length sample_payload = 11%nat
  /\ Forall (fun e => is_byte e /\ e <> 0) sample_payload
  /\ Forall is_payload (repeat sample_payload 5)
  /\ items (Item sample_payload :: Empty :: repeat (Item sample_payload) 4)
     = repeat sample_payload 5
  /\ exists frame s,
       main (Item sample_payload :: Empty :: repeat (Item sample_payload) 4)
       = Ok (repeat frame 5, Finished s)
       /\ received_packets s = 5%nat
       /\ length (results_all s) = 55%nat.
Proof.
  assert (Hexp : Forall (fun e => is_byte e /\ e <> 0) sample_payload).
  { repeat constructor; unfold is_byte; lia. }
  assert (Hpay : Forall is_payload (repeat sample_payload 5)).
  { repeat constructor; unfold is_byte; lia. }
  split; [reflexivity|]. split; [exact Hexp|]. split; [exact Hpay|].
  split; [reflexivity|].
  destruct (C7_record_count_and_order
              (expected_data := sample_payload)
              (payloads := repeat sample_payload 5)
              (Item sample_payload :: Empty :: repeat (Item sample_payload) 4)
              eq_refl Hexp Hpay eq_refl)
    as (frame & s & _ & Hrun & Hn & Hcount & _).
  exists frame, s. repeat split; assumption.
Defined.

(** C8. Frame buffer invariant and termination: from every buffer content
    the inner loop terminates (with any fuel above the buffer length, and
    without raising).  When it ends, the buffer is what is left of the old
    one after dropping a prefix, holds fewer than 16 bytes, and so has no
    complete valid frame at its front; the queue is the old queue followed
    by the payloads taken in this pass, each decoded from 16 consecutive
    bytes of the buffer, 16 bytes spent for each.  The pass is the one the
    step policy fixes: a buffer under 16 bytes is left exactly as it is
    (leftover header bytes are kept); a valid frame at the front is queued
    and the pass goes on behind it; a failing candidate costs one byte.  In
    particular whole frames back to back are all taken and a shorter tail
    behind them is all that stays.  That residue is what the next non-empty
    read is appended to: the bytes left over, joined with later bytes, give
    what the whole would have given, so two reads in a row leave the
    receiver where one read of the joined bytes leaves it. *)
Theorem C8_buffer_invariant_and_termination (st : rx_state) :
  exists st' new,
    inner_loop st = Done st'
    /\ (forall fuel, (length (buffer st) < fuel)%nat ->
                     inner_loop_fuel fuel st = Done st')
    /\ (length (buffer st') < 16)%nat
    /\ inner_step st' = Break
    /\ tryDecode (firstn 16 (buffer st')) = None
    /\ (exists n, buffer st' = skipn n (buffer st))
    /\ packet_queue st' = packet_queue st ++ new
    /\ Forall (decoded_from (buffer st)) new
    /\ (16 * length new + length (buffer st') <= length (buffer st))%nat
    /\ ((length (buffer st) < 16)%nat -> st' = st)
    /\ (forall payload,
          (16 <= length (buffer st))%nat ->
          tryDecode (firstn 16 (buffer st)) = Some payload ->
          inner_loop {| buffer := skipn 16 (buffer st);
                        packet_queue := packet_queue st ++ [payload] |}
          = Done st')
    /\ ((16 <= length (buffer st))%nat ->
        tryDecode (firstn 16 (buffer st)) = None ->
        inner_loop {| buffer := skipn 1 (buffer st);
                      packet_queue := packet_queue st |}
        = Done st')
    /\ (forall ps tail,
          buffer st = concat (map frame_of ps) ++ tail ->
          Forall is_payload ps -> (length tail < 16)%nat ->
          st' = {| buffer := tail; packet_queue := packet_queue st ++ ps |})
    /\ (forall data,
          inner_loop {| buffer := buffer st ++ data;
                        packet_queue := packet_queue st |}
          = inner_loop {| buffer := buffer st' ++ data;
                          packet_queue := packet_queue st' |})
    /\ (forall x data ser,
          receiver_loop (Data (x :: data) :: ser) st'
          = match inner_loop {| buffer := buffer st' ++ x :: data;
                                packet_queue := packet_queue st' |} with
            | Done st'' => receiver_loop ser st''
            | stopped => stopped
            end)
    /\ (forall c1 c2 ser,
          receiver_loop (Data c1 :: Data c2 :: ser) st
          = receiver_loop (Data (c1 ++ c2) :: ser) st).
Proof.
  destruct (inner_loop_done st) as (st' & Hrun & Hshort & Hsuffix).
  destruct (inner_loop_trace st) as (residual & new & Htrace & Hall & Hcount).
  assert (Hst' : st' = {| buffer := residual;
                          packet_queue := packet_queue st ++ new |})
    by congruence.
  exists st', new. split; [exact Hrun|].
  split.
  { intros fuel Hfuel.
    destruct (inner_loop_fuel_done (fuel := fuel) st Hfuel) as (st1 & Hrun1 & _).
    rewrite Hrun1. f_equal.
    destruct (Nat.le_ge_cases fuel (S (length (buffer st)))) as [Hle|Hge].
    - pose proof (inner_loop_fuel_more _ Hrun1 Hle) as H.
      unfold inner_loop in Hrun. congruence.
    - unfold inner_loop in Hrun.
      pose proof (inner_loop_fuel_more _ Hrun Hge) as H. congruence. }
  split; [exact Hshort|].
  split; [now apply inner_step_break|].
  split; [now apply tryDecode_short|].
  split; [exact Hsuffix|].
  split; [rewrite Hst'; reflexivity|].
  split; [exact Hall|].
  split; [rewrite Hst'; exact Hcount|].
  split.
  { intros Hlt. rewrite inner_loop_short in Hrun by assumption. congruence. }
  split.
  { intros payload Hge Hdec. rewrite <- Hrun.
    rewrite (inner_loop_unfold st), inner_step_tryDecode, Hdec by assumption.
    reflexivity. }
  split.
  { intros Hge Hdec. rewrite <- Hrun.
    rewrite (inner_loop_unfold st), inner_step_tryDecode, Hdec by assumption.
    reflexivity. }
  split.
  { intros ps tail Hbuf Hps Htail.
    destruct st as [buf q]. cbn [buffer packet_queue] in *. subst buf.
    rewrite inner_loop_frames_tail in Hrun by assumption. congruence. }
  split.
  { intros data. exact (@inner_loop_extend st st' data Hrun). }
  split; [reflexivity|].
  intros c1 c2 ser. apply receiver_loop_join.
Qed.

Lemma C8_buffer_invariant_and_termination_witness :
  inner_loop {| buffer := frame_of sample_payload ++ frame_of sample_payload'
                          ++ [36; 70];
                packet_queue := [] |}
  = Done {| buffer := [36; 70];
            packet_queue := [sample_payload; sample_payload'] |}.
Proof.
  destruct (C8_buffer_invariant_and_termination
              {| buffer := frame_of sample_payload ++ frame_of sample_payload'
                           ++ [36; 70];
                 packet_queue := [] |})
    as (st' & new & Hrun & _ & _ & _ & _ & _ & _ & _ & _ & _ & _ & _ & Hframes
        & _).
  assert (Hpay : Forall is_payload [sample_payload; sample_payload']).
  { repeat constructor; unfold is_byte; lia. }
  rewrite Hrun. f_equal.
  apply (Hframes [sample_payload; sample_payload'] [36; 70]);
    [vm_compute; reflexivity | exact Hpay | cbn; lia].
Defined.

(** C9. Receive timeouts: while fewer than [packets_to_send] payloads have
    been received, a timed-out wait prints the timeout line, leaves the
    received count and the results as they are, and the loop goes on to the
    next wait; after any number of timeouts in a row the loop is still
    waiting; and when the loop has ended, exactly [packets_to_send] payloads
    have been taken from the queue and compared, 11 records each. *)
Theorem C9_timeout_handling (expected_data : list Z) (packets_to_send : nat) :
  (forall gets s,
     (received_packets s < packets_to_send)%nat ->
     consume expected_data packets_to_send (Empty :: gets) s
     = consume expected_data packets_to_send gets
         {| received_packets := received_packets s;
            results_all := results_all s;
            stdout := stdout s ++ ["Timeout waiting for packet"%string] |})
  /\ (forall k s,
        (received_packets s < packets_to_send)%nat ->
        consume expected_data packets_to_send (repeat Empty k) s
        = Waiting {| received_packets := received_packets s;
                     results_all := results_all s;
                     stdout := stdout s
                               ++ repeat "Timeout waiting for packet"%string k |})
  /\ (forall gets s',
        consume expected_data packets_to_send gets session_start = Finished s' ->
        received_packets s' = packets_to_send
        /\ length (results_all s') = (11 * packets_to_send)%nat
        /\ exists consumed rest,
             gets = consumed ++ rest
             /\ length (items consumed) = packets_to_send
             /\ stdout s'
                = stdout session_start
                  ++ repeat "Timeout waiting for packet"%string
                            (timeouts consumed)).
Proof.
  split; [|split].
  - intros gets s H. now apply consume_timeout.
  - intros k s H. now apply consume_stalled.
  - intros gets s' Hrun.
    apply consume_finished in Hrun; [|cbn; lia].
    cbn [session_start received_packets results_all length] in Hrun.
    rewrite Nat.sub_0_r in Hrun.
    destruct Hrun as (Hn & consumed & rest & Hsplit & Hitems & Hres & Hout).
    split; [exact Hn|]. split; [exact Hres|].
    exists consumed, rest. repeat split; assumption.
Qed.

Lemma C9_timeout_handling_witness :
  (received_packets session_start < 5)%nat
  /\ consume sample_payload 5 (repeat Empty 3) session_start
     = Waiting {| received_packets := 0;
                  results_all := [];
                  stdout := stdout session_start
                            ++ repeat "Timeout waiting for packet"%string 3 |}.
Proof.
  assert (H : (received_packets session_start < 5)%nat) by (cbn; lia).
  split; [exact H|].
  exact (proj1 (proj2 (C9_timeout_handling sample_payload 5)) 3%nat
           session_start H).
Defined.

(** C10. The checksum fits an unsigned 16-bit integer: on every byte
    sequence the accumulator stays within 0..65535 after every shift and
    after every byte, so the value [crc16] returns is in that range,
    [struct.pack('<H', ...)] does not raise on it and gives exactly two
    bytes, which are the two last bytes of the frame [create_packet]
    builds. *)
Theorem C10_crc16_fits_uint16 (data : list Z) :
  Forall is_byte data ->
  0 <= crc16 data <= 65535
  /\ (forall k n b,
        is_byte b ->
        0 <= Nat.iter n shift_step (Z.lxor (crc16 (firstn k data)) b) <= 65535)
  /\ (exists lo hi,
        struct_pack_H (crc16 data) = Ok [lo; hi]
        /\ is_byte lo /\ is_byte hi
        /\ struct_unpack_H [lo; hi] = Ok (crc16 data))
  /\ (exists lo hi,
        create_packet data = Ok ((HEADER ++ data) ++ [lo; hi])
        /\ struct_pack_H (crc16 (HEADER ++ data)) = Ok [lo; hi]
        /\ is_byte lo /\ is_byte hi).
Proof.
  intros Hd.
  pose proof (crc16_word16 Hd) as Hcrc.
  split; [unfold word16 in Hcrc; lia|].
  split.
  { intros k n b Hb.
    assert (Hk : word16 (crc16 (firstn k data)))
      by (apply crc16_word16, firstn_bytes, Hd).
    assert (Hx : word16 (Z.lxor (crc16 (firstn k data)) b)).
    { apply lxor_word16; [exact Hk | unfold word16, is_byte in *; lia]. }
    pose proof (iter_shift_step_word16 n Hx) as Hn.
    unfold word16 in Hn. lia. }
  split.
  { exists (Z.land (crc16 data) 0xFF), (Z.shiftr (crc16 data) 8).
    split; [now apply struct_pack_H_word16|].
    split; [now apply pack_bytes|]. split; [now apply pack_bytes|].
    cbn [struct_unpack_H]. rewrite land255_shiftr8 by apply Hcrc. reflexivity. }
  assert (Hraw : word16 (crc16 (HEADER ++ data))).
  { apply crc16_word16, Forall_app. split; [apply header_bytes | assumption]. }
  exists (Z.land (crc16 (HEADER ++ data)) 0xFF), (Z.shiftr (crc16 (HEADER ++ data)) 8).
  split.
  { rewrite create_packet_bytes by assumption. unfold checksum_bytes.
    now rewrite app_assoc. }
  split; [now apply struct_pack_H_word16|].
  split; now apply pack_bytes.
Qed.

Lemma C10_crc16_fits_uint16_witness :
  Forall is_byte [255; 0; 171]
  /\ 0 <= crc16 [255; 0; 171] <= 65535
  /\ exists lo hi,
       struct_pack_H (crc16 [255; 0; 171]) = Ok [lo; hi]
       /\ is_byte lo /\ is_byte hi.
Proof.
  assert (Hb : Forall is_byte [255; 0; 171])
    by (repeat constructor; unfold is_byte; lia).
  split; [exact Hb|].
  destruct (C10_crc16_fits_uint16 Hb)
    as (Hrange & _ & (lo & hi & Hpack & Hlo & Hhi & _) & _).
  split; [exact Hrange|].
  exists lo, hi. split; [exact Hpack|]. split; [exact Hlo | exact Hhi].
Defined.

(** * Further properties of the code *)

(** ** The checksum is linear over XOR *)

Module CRCAlgebra.

Ltac xor_bits :=
  apply Z.bits_inj'; intros ?n _; rewrite ?Z.lxor_spec;
  repeat match goal with
         | |- context [Z.testbit ?a ?n] =>
             is_var a; destruct (Z.testbit a n)
         | |- context [Z.testbit ?a ?n] => destruct (Z.testbit a n)
         end; reflexivity.

Lemma low_bit_cases (a : Z) : Z.land a 1 = 0 \/ Z.land a 1 = 1.
Proof.
  assert (Hland : Z.land a 1 = a mod 2)
    by exact (Z.land_ones a 1 ltac:(lia)).
  pose proof (Z.mod_pos_bound a 2 ltac:(lia)). lia.
Qed.

Lemma land_lxor (a b c : Z) :
  Z.land (Z.lxor a b) c = Z.lxor (Z.land a c) (Z.land b c).
Proof.
  apply Z.bits_inj'. intros n _.
  rewrite ?Z.land_spec, ?Z.lxor_spec, ?Z.land_spec.
  now destruct (Z.testbit a n), (Z.testbit b n), (Z.testbit c n).
Qed.

Lemma shift_step_lxor (a b : Z) :
  shift_step (Z.lxor a b) = Z.lxor (shift_step a) (shift_step b).
Proof.
  unfold shift_step.
  rewrite land_lxor, Z.shiftr_lxor.
  generalize (Z.shiftr a 1) (Z.shiftr b 1). intros sa sb.
  destruct (low_bit_cases a) as [-> | ->], (low_bit_cases b) as [-> | ->];
    try change (Z.lxor 0 0) with 0; try change (Z.lxor 0 1) with 1;
    try change (Z.lxor 1 0) with 1; try change (Z.lxor 1 1) with 0;
    cbn [Z.eqb negb]; xor_bits.
Qed.

Lemma iter_shift_step_lxor (n : nat) (a b : Z) :
  Nat.iter n shift_step (Z.lxor a b)
  = Z.lxor (Nat.iter n shift_step a) (Nat.iter n shift_step b).
Proof.
  induction n as [|n IH]; [reflexivity|].
  rewrite !Nat.iter_succ. now rewrite IH, shift_step_lxor.
Qed.

Lemma shift_step_nonzero (x : Z) : word16 x -> x <> 0 -> shift_step x <> 0.
Proof.
  unfold word16, shift_step. intros Hx Hnz.
  assert (Hland : Z.land x 1 = x mod 2)
    by exact (Z.land_ones x 1 ltac:(lia)).
  assert (Hshift : Z.shiftr x 1 = x / 2)
    by exact (Z.shiftr_div_pow2 x 1 ltac:(lia)).
  pose proof (Z.div_mod x 2 ltac:(lia)) as Hdm.
  pose proof (Z.mod_pos_bound x 2 ltac:(lia)) as Hm.
  rewrite Hland, Hshift.
  destruct (x mod 2 =? 0) eqn:E; cbn [negb].
  - apply Z.eqb_eq in E. lia.
  - intros H. apply Z.lxor_eq in H. lia.
Qed.

Lemma iter_shift_step_nonzero (n : nat) (x : Z) :
  word16 x -> x <> 0 -> Nat.iter n shift_step x <> 0.
Proof.
  intros Hx Hnz. induction n as [|n IH]; [exact Hnz|].
  rewrite Nat.iter_succ. apply shift_step_nonzero; [|exact IH].
  now apply iter_shift_step_word16.
Qed.

(** A difference in the accumulator survives every further byte. *)
Lemma fold_byte_step_lxor (data : list Z) :
  forall c d,
    fold_left byte_step data (Z.lxor c d)
    = Z.lxor (fold_left byte_step data c)
             (Nat.iter (8 * length data) shift_step d).
Proof.
  induction data as [|b data IH]; intros c d.
  - cbn. reflexivity.
  - cbn [fold_left length]. unfold byte_step at 2 4.
    replace (Z.lxor (Z.lxor c d) b) with (Z.lxor (Z.lxor c b) d) by xor_bits.
    rewrite iter_shift_step_lxor, IH.
    replace (8 * S (length data))%nat with (8 * length data + 8)%nat by lia.
    now rewrite Nat.iter_add.
Qed.

Lemma pow2_word16 (k : nat) :
  (k < 16)%nat -> word16 (2 ^ Z.of_nat k) /\ 2 ^ Z.of_nat k <> 0.
Proof.
  intros Hk. unfold word16.
  assert (0 < 2 ^ Z.of_nat k) by (apply Z.pow_pos_nonneg; lia).
  assert (2 ^ Z.of_nat k < 2 ^ 16) by (apply Z.pow_lt_mono_r; lia).
  change (2 ^ 16) with 65536 in *. lia.
Qed.

Lemma lxor_changes (x d : Z) : d <> 0 -> Z.lxor x d <> x.
Proof.
  intros Hd H. apply Hd.
  assert (Hx : Z.lxor x (Z.lxor x d) = Z.lxor x x) by congruence.
  rewrite <- Z.lxor_assoc, Z.lxor_nilpotent, Z.lxor_0_l in Hx. exact Hx.
Qed.

Lemma crc16_flip (pre post : list Z) (b : Z) (k : nat) :
  (k < 16)%nat ->
  crc16 (pre ++ Z.lxor b (2 ^ Z.of_nat k) :: post) <> crc16 (pre ++ b :: post).
Proof.
  intros Hk. unfold crc16. rewrite !fold_left_app. cbn [fold_left].
  generalize (fold_left byte_step pre 65535). intros c.
  unfold byte_step at 2 4.
  replace (Z.lxor c (Z.lxor b (2 ^ Z.of_nat k)))
    with (Z.lxor (Z.lxor c b) (2 ^ Z.of_nat k)) by xor_bits.
  rewrite iter_shift_step_lxor, fold_byte_step_lxor.
  apply lxor_changes.
  destruct (pow2_word16 Hk) as [Hw Hnz].
  rewrite <- Nat.iter_add.
  now apply iter_shift_step_nonzero.
Qed.

End CRCAlgebra.

Import CRCAlgebra.

Lemma flip_bit_split (i k : nat) (l : list Z) :
  (i < length l)%nat ->
  exists b post,
    l = firstn i l ++ b :: post
    /\ flip_bit i k l = firstn i l ++ Z.lxor b (2 ^ Z.of_nat k) :: post.
Proof.
  intros Hi. unfold flip_bit.
  destruct (skipn i l) as [|b post] eqn:E.
  - apply (f_equal (@length Z)) in E. rewrite length_skipn in E. cbn in E. lia.
  - exists b, post. split; [|reflexivity].
    rewrite <- E. symmetry. apply firstn_skipn.
Qed.

Lemma flip_bit_length (i k : nat) (l : list Z) :
  length (flip_bit i k l) = length l.
Proof.
  unfold flip_bit. rewrite length_app.
  transitivity (length (firstn i l) + length (skipn i l))%nat.
  - now destruct (skipn i l).
  - now rewrite <- length_app, firstn_skipn.
Qed.

Lemma crc16_detects_single_bit_flip_aux (data : list Z) (i k : nat) :
  (i < length data)%nat -> (k < 8)%nat ->
  crc16 (flip_bit i k data) <> crc16 data.
Proof.
  intros Hi Hk.
  destruct (flip_bit_split k data Hi) as (b & post & Hdata & ->).
  rewrite Hdata at 2. apply crc16_flip. lia.
Qed.

(** X1. The checksum sees every single-bit change: inverting one bit of
    one element of a sequence, whatever its length and content, changes the
    value [crc16] returns. *)
Theorem crc16_detects_single_bit_flip (data : list Z) (i k : nat) :
  (i < length data)%nat -> (k < 8)%nat ->
  crc16 (flip_bit i k data) <> crc16 data.
Proof.
  intros Hi Hk. now apply crc16_detects_single_bit_flip_aux.
Qed.

Lemma crc16_detects_single_bit_flip_witness :
  (4 < length sample_payload)%nat /\ (7 < 8)%nat
  /\ crc16 [10; 20; 30; 40; 178; 60; 70; 80; 90; 100; 110]
     <> crc16 sample_payload.
Proof.
  assert (Hi : (4 < length sample_payload)%nat)
    by (unfold sample_payload; cbn [length]; lia).
  assert (Hk : (7 < 8)%nat) by lia.
  split; [exact Hi|]. split; [exact Hk|].
  exact (crc16_detects_single_bit_flip sample_payload Hi Hk).
Defined.

Lemma iter_shift_step_shiftl (n : nat) (h : Z) :
  Nat.iter n shift_step (Z.shiftl h (Z.of_nat n)) = h.
Proof.
  induction n as [|n IH]; [apply Z.shiftl_0_r|].
  rewrite Nat.iter_succ_r.
  replace (shift_step (Z.shiftl h (Z.of_nat (S n))))
    with (Z.shiftl h (Z.of_nat n)); [exact IH|].
  unfold shift_step.
  assert (Hland : Z.land (Z.shiftl h (Z.of_nat (S n))) 1
                  = Z.shiftl h (Z.of_nat (S n)) mod 2)
    by exact (Z.land_ones _ 1 ltac:(lia)).
  rewrite Hland, <- Z.bit0_mod, Z.shiftl_spec_low by lia.
  cbn [Z.b2z Z.eqb negb].
  rewrite Z.shiftr_shiftl_l by lia. f_equal. lia.
Qed.

Lemma lxor_low_byte (c : Z) :
  Z.lxor c (Z.land c 0xFF) = Z.shiftl (Z.shiftr c 8) 8.
Proof.
  apply Z.bits_inj'. intros n Hn.
  rewrite Z.lxor_spec, Z.land_spec.
  change 0xFF with (Z.ones 8).
  destruct (Z.lt_ge_cases n 8) as [Hlt|Hge].
  - rewrite Z.ones_spec_low, Z.shiftl_spec_low by lia.
    now destruct (Z.testbit c n).
  - rewrite Z.ones_spec_high, Z.shiftl_spec, Z.shiftr_spec by lia.
    replace (n - 8 + 8) with n by lia.
    now destruct (Z.testbit c n).
Qed.

Lemma crc16_residue (data : list Z) :
  crc16 (data ++ [Z.land (crc16 data) 0xFF; Z.shiftr (crc16 data) 8]) = 0.
Proof.
  unfold crc16 at 1. rewrite fold_left_app. fold (crc16 data).
  cbn [fold_left]. unfold byte_step at 2.
  rewrite lxor_low_byte.
  pose proof (iter_shift_step_shiftl 8 (Z.shiftr (crc16 data) 8)) as Hhigh.
  change (Z.of_nat 8) with 8 in Hhigh. rewrite Hhigh.
  unfold byte_step. now rewrite Z.lxor_nilpotent.
Qed.

Lemma create_packet_inv (data frame : list Z) :
  create_packet data = Ok frame ->
  Forall is_byte data /\ frame = HEADER ++ data ++ checksum_bytes data.
Proof.
  intros H.
  assert (Hb : Forall is_byte data).
  { unfold create_packet, bytes in H.
    destruct (forallb byteb data) eqn:E; [|discriminate].
    now apply forallb_byteb. }
  split; [exact Hb|].
  rewrite create_packet_bytes in H by assumption. congruence.
Qed.

(** X2. Residue: the checksum of a whole frame, its two checksum bytes
    included, is zero, for a payload of any length. *)
Theorem crc16_of_frame_is_zero (data frame : list Z) :
  create_packet data = Ok frame -> crc16 frame = 0.
Proof.
  intros H. apply create_packet_inv in H. destruct H as [_ ->].
  unfold checksum_bytes. rewrite app_assoc. apply crc16_residue.
Qed.

Lemma crc16_of_frame_is_zero_witness :
  create_packet sample_payload
  = Ok [36; 70; 83; 10; 20; 30; 40; 50; 60; 70; 80; 90; 100; 110; 90; 110]
  /\ crc16 [36; 70; 83; 10; 20; 30; 40; 50; 60; 70; 80; 90; 100; 110; 90; 110]
     = 0.
Proof.
  assert (H : create_packet sample_payload
              = Ok [36; 70; 83; 10; 20; 30; 40; 50; 60; 70; 80; 90; 100; 110;
                    90; 110]) by (vm_compute; reflexivity).
  split; [exact H|].
  exact (crc16_of_frame_is_zero sample_payload H).
Defined.

Lemma flip_changes (b : Z) (k : nat) :
  (k < 8)%nat -> Z.lxor b (2 ^ Z.of_nat k) <> b.
Proof.
  intros Hk. apply lxor_changes.
  now destruct (pow2_word16 (k := k) ltac:(lia)).
Qed.

Lemma tryDecode_flipped (P : list Z) (i k : nat) :
  is_payload P -> (i < 16)%nat -> (k < 8)%nat ->
  tryDecode (flip_bit i k (frame_of P)) = None.
Proof.
  intros [Hlen Hbytes] Hi Hk.
  rewrite frame_of_bytes by assumption. unfold checksum_bytes.
  assert (Hcrc : word16 (crc16 (HEADER ++ P))).
  { apply crc16_word16, Forall_app. split; [apply header_bytes | assumption]. }
  pose proof (land255_shiftr8 (proj1 Hcrc)) as Hsum.
  assert (Hraw : forall j, (j < 14)%nat ->
                 crc16 (flip_bit j k (HEADER ++ P)) <> crc16 (HEADER ++ P)).
  { intros j Hj. apply crc16_detects_single_bit_flip_aux; [|exact Hk].
    rewrite length_app, Hlen. cbn. lia. }
  pose proof (flip_changes (b := Z.land (crc16 (HEADER ++ P)) 255) Hk) as Hlo.
  pose proof (flip_changes (b := Z.shiftr (crc16 (HEADER ++ P)) 8) Hk) as Hhi.
  remember (crc16 (HEADER ++ P)) as c eqn:Hc.
  do 11 (destruct P as [|? P]; [discriminate Hlen|]).
  destruct P; [|discriminate Hlen].
  cbn [HEADER app] in Hc, Hraw |- *.
  do 16 (destruct i as [|i];
    [ match goal with
      | |- tryDecode (flip_bit ?n _ _) = None =>
          first
            [ (* a bit of the magic *)
              unfold flip_bit; cbn [firstn skipn app tryDecode];
              match goal with
              | |- context [Z.lxor ?m (2 ^ Z.of_nat k) =? ?m] =>
                  rewrite (proj2 (Z.eqb_neq _ _) (flip_changes (b := m) Hk));
                  reflexivity
              end
            | (* a bit of the payload *)
              let H := fresh "Hflip" in
              assert (H := Hraw n ltac:(lia));
              unfold flip_bit in H |- *;
              cbn [firstn skipn app tryDecode] in H |- *;
              rewrite Hsum, (proj2 (Z.eqb_neq _ _) H); reflexivity
            | (* a bit of the checksum *)
              unfold flip_bit; cbn [firstn skipn app tryDecode];
              rewrite <- Hc;
              match goal with
              | |- context [c =? ?v] =>
                  replace (c =? v) with false
                    by (symmetry; apply Z.eqb_neq; lia)
              end;
              reflexivity ]
      end
    |]).
  lia.
Qed.

(** X3. A frame with one inverted bit is never accepted: whichever of its
    128 bits is inverted (magic, payload or checksum), the receiver's checks
    reject the 16 bytes, and a pass of the loop over a buffer starting with
    them queues nothing and drops exactly the leading byte. *)
Theorem corrupted_frame_rejected (P rest : list Z) (q : list (list Z))
                                 (i k : nat) :
  length P = 11%nat -> Forall is_byte P -> (i < 16)%nat -> (k < 8)%nat ->
  tryDecode (flip_bit i k (frame_of P)) = None
  /\ inner_step {| buffer := flip_bit i k (frame_of P) ++ rest;
                   packet_queue := q |}
     = Continue {| buffer := skipn 1 (flip_bit i k (frame_of P) ++ rest);
                   packet_queue := q |}.
Proof.
  intros Hlen Hbytes Hi Hk.
  assert (Hp : is_payload P) by (split; assumption).
  pose proof (tryDecode_flipped Hp Hi Hk) as Hdec.
  split; [exact Hdec|].
  assert (Hl : length (flip_bit i k (frame_of P)) = 16%nat).
  { rewrite flip_bit_length, frame_of_length, Hlen by assumption. reflexivity. }
  rewrite inner_step_tryDecode by (cbn; rewrite length_app; lia).
  cbn [buffer]. now rewrite (firstn_exact _ rest Hl), Hdec.
Qed.

Lemma corrupted_frame_rejected_witness :
  length sample_payload = 11%nat /\ Forall is_byte sample_payload
  /\ (13 < 16)%nat /\ (0 < 8)%nat
  /\ tryDecode [36; 70; 83; 10; 20; 30; 40; 50; 60; 70; 80; 90; 100; 111; 90; 110]
     = None.
Proof.
  assert (Hb : Forall is_byte sample_payload)
    by (repeat constructor; unfold is_byte; lia).
  assert (Hi : (13 < 16)%nat) by lia.
  assert (Hk : (0 < 8)%nat) by lia.
  split; [reflexivity|]. split; [exact Hb|]. split; [exact Hi|].
  split; [exact Hk|].
  exact (proj1 (corrupted_frame_rejected (P := sample_payload) [] []
                  eq_refl Hb Hi Hk)).
Defined.

Lemma tryDecode_payload_length (c p : list Z) :
  tryDecode c = Some p -> length p = 11%nat.
Proof.
  intros H. pose proof (tryDecode_length _ H) as Hlen.
  do 16 (destruct c as [|? c]; [discriminate Hlen|]).
  destruct c; [|discriminate Hlen].
  cbn [tryDecode] in H.
  repeat match type of H with
         | (if ?b then _ else _) = _ => destruct b; [|discriminate H]
         end.
  now injection H as <-.
Qed.

Lemma firstn_3_11 (c : list Z) :
  firstn 3 c ++ firstn 11 (skipn 3 c) = firstn 14 c.
Proof.
  do 3 (destruct c as [|? c]; [reflexivity|]). cbn [firstn skipn app].
  reflexivity.
Qed.

Lemma sublist_bytes (c : list Z) (n m : nat) :
  Forall is_byte c -> Forall is_byte (firstn n (skipn m c)).
Proof.
  intros H. apply firstn_bytes.
  rewrite <- (firstn_skipn m c) in H. apply Forall_app in H. apply H.
Qed.

Lemma unpack_pack (lo hi : Z) :
  is_byte lo -> is_byte hi ->
  Z.land (lo + 256 * hi) 255 = lo /\ Z.shiftr (lo + 256 * hi) 8 = hi.
Proof.
  unfold is_byte. intros Hlo Hhi.
  assert (Hland : Z.land (lo + 256 * hi) 255 = (lo + 256 * hi) mod 256)
    by exact (Z.land_ones _ 8 ltac:(lia)).
  assert (Hshift : Z.shiftr (lo + 256 * hi) 8 = (lo + 256 * hi) / 256)
    by exact (Z.shiftr_div_pow2 _ 8 ltac:(lia)).
  rewrite Hland, Hshift. split; symmetry.
  - apply Z.mod_unique with hi; lia.
  - apply Z.div_unique with lo; lia.
Qed.

Lemma last_two (c : list Z) :
  length c = 16%nat -> c = firstn 14 c ++ [nth 14 c 0; nth 15 c 0].
Proof.
  intros Hlen.
  do 16 (destruct c as [|? c]; [discriminate Hlen|]).
  destruct c; [reflexivity | discriminate Hlen].
Qed.

(** X4. Decode then encode: 16 bytes that the receiver's checks accept are
    exactly the frame [create_packet] builds for the payload they carry, so
    the receiver accepts nothing but frames of [create_packet]. *)
Theorem accepted_frame_is_created (c p : list Z) :
  Forall is_byte c -> tryDecode c = Some p -> create_packet p = Ok c.
Proof.
  intros Hb H. pose proof (tryDecode_length _ H) as Hlen.
  rewrite <- (firstn_all c), Hlen, tryDecode_checks in H by lia.
  remember (firstn 11 (skipn 3 c)) as body eqn:Hbody.
  destruct (magic_ok c) eqn:Em; [|discriminate H].
  destruct (checksum_ok c) eqn:Ec; [|discriminate H].
  injection H as <-. subst body.
  unfold magic_ok in Em. apply list_eqb_eq in Em.
  unfold checksum_ok in Ec. apply Z.eqb_eq in Ec.
  rewrite create_packet_bytes by now apply sublist_bytes.
  unfold checksum_bytes.
  rewrite <- Em, app_assoc, firstn_3_11, Ec.
  assert (Hlo : is_byte (nth 14 c 0) /\ is_byte (nth 15 c 0)).
  { rewrite Forall_forall in Hb. split; apply Hb, nth_In; lia. }
  destruct (unpack_pack (proj1 Hlo) (proj2 Hlo)) as [-> ->].
  f_equal. symmetry. now apply last_two.
Qed.

Lemma accepted_frame_is_created_witness :
  Forall is_byte (frame_of sample_payload')
  /\ tryDecode (frame_of sample_payload') = Some sample_payload'
  /\ create_packet sample_payload' = Ok (frame_of sample_payload').
Proof.
  assert (Hb : Forall is_byte (frame_of sample_payload')).
  { vm_compute. repeat constructor; discriminate. }
  assert (Hd : tryDecode (frame_of sample_payload') = Some sample_payload')
    by (vm_compute; reflexivity).
  split; [exact Hb|]. split; [exact Hd|].
  exact (accepted_frame_is_created Hb Hd).
Defined.

Lemma inner_loop_frame (P : list Z) (q : list (list Z)) :
  is_payload P ->
  inner_loop {| buffer := frame_of P; packet_queue := q |}
  = Done {| buffer := []; packet_queue := q ++ [P] |}.
Proof.
  intros Hp. rewrite inner_loop_unfold.
  rewrite <- (app_nil_r (frame_of P)), frame_step by assumption.
  apply inner_loop_short. cbn. lia.
Qed.

(** X5. A frame split over two reads: when the first read brings fewer than
    16 bytes of a frame and the second read the rest, nothing is queued
    after the first read, which only keeps the bytes, and exactly the
    payload is queued after the second, with the buffer empty again. *)
Theorem split_frame_reassembled (P : list Z) (q : list (list Z)) (n : nat) :
  length P = 11%nat -> Forall is_byte P -> (n < 16)%nat ->
  serial_receiver [Data (firstn n (frame_of P))] q
  = Done {| buffer := firstn n (frame_of P); packet_queue := q |}
  /\ serial_receiver [Data (firstn n (frame_of P)); Data (skipn n (frame_of P))] q
     = Done {| buffer := []; packet_queue := q ++ [P] |}.
Proof.
  intros Hlen Hbytes Hn.
  assert (Hp : is_payload P) by (split; assumption).
  assert (Hl : length (frame_of P) = 16%nat).
  { rewrite frame_of_length, Hlen by assumption. reflexivity. }
  unfold serial_receiver. split.
  - destruct (firstn n (frame_of P)) as [|x l] eqn:E; [reflexivity|].
    cbn [receiver_loop]. unfold extend. cbn [buffer packet_queue app].
    rewrite inner_loop_short; [reflexivity|].
    cbn [buffer]. rewrite <- E, length_firstn. lia.
  - rewrite receiver_loop_join, firstn_skipn.
    destruct (frame_of P) as [|x l] eqn:E; [discriminate Hl|].
    cbn [receiver_loop]. unfold extend. cbn [buffer packet_queue app].
    rewrite <- E, inner_loop_frame by assumption. reflexivity.
Qed.

Lemma split_frame_reassembled_witness :
  length sample_payload = 11%nat /\ Forall is_byte sample_payload
  /\ (2 < 16)%nat
  /\ serial_receiver [Data [36; 70]] []
     = Done {| buffer := [36; 70]; packet_queue := [] |}
  /\ serial_receiver
       [Data [36; 70];
        Data [83; 10; 20; 30; 40; 50; 60; 70; 80; 90; 100; 110; 90; 110]] []
     = Done {| buffer := []; packet_queue := [] ++ [sample_payload] |}.
Proof.
  assert (Hb : Forall is_byte sample_payload)
    by (repeat constructor; unfold is_byte; lia).
  assert (Hn : (2 < 16)%nat) by lia.
  split; [reflexivity|]. split; [exact Hb|]. split; [exact Hn|].
  exact (split_frame_reassembled (P := sample_payload) [] eq_refl Hb Hn).
Defined.

(** ** The receiver as a function of the bytes read *)

Lemma receiver_loop_bytes_read (ser : list read_result) :
  forall st,
    (length (buffer st) < 16)%nat ->
    receiver_loop ser st = inner_loop (extend st (bytes_read ser)).
Proof.
  induction ser as [|[data|] ser IH]; intros st Hshort;
    cbn [receiver_loop bytes_read];
    try (rewrite extend_nil; symmetry; now apply inner_loop_short).
  destruct data as [|x data]; [now apply IH|].
  destruct (inner_loop_done (extend st (x :: data))) as (st1 & Hrun & Hs1 & _).
  rewrite Hrun, (IH st1 Hs1), <- extend_extend. symmetry.
  now apply inner_loop_extend.
Qed.

Lemma serial_receiver_bytes_read (ser : list read_result) (q : list (list Z)) :
  serial_receiver ser q
  = inner_loop {| buffer := bytes_read ser; packet_queue := q |}.
Proof.
  unfold serial_receiver. rewrite receiver_loop_bytes_read by (cbn; lia).
  reflexivity.
Qed.

Lemma bytes_read_exception (pre post : list read_result) :
  bytes_read (pre ++ SerialException :: post) = bytes_read pre ++ [].
Proof.
  induction pre as [|[data|] pre IH]; cbn [app bytes_read]; try reflexivity.
  now rewrite IH, !app_nil_r.
Qed.

(** X6. Only the bytes matter, not the reads they came in: two runs of the
    receiver whose reads, up to the first transport error, deliver the same
    bytes end with the same buffer and the same queue; empty reads and read
    boundaries leave no trace. *)
Theorem receiver_ignores_read_boundaries (ser1 ser2 : list read_result)
                                         (q : list (list Z)) :
  bytes_read ser1 = bytes_read ser2 ->
  serial_receiver ser1 q = serial_receiver ser2 q.
Proof.
  intros H. now rewrite !serial_receiver_bytes_read, H.
Qed.

Lemma receiver_ignores_read_boundaries_witness :
  bytes_read (map Data sample_chunks) = bytes_read [Data sample_stream]
  /\ serial_receiver (map Data sample_chunks) []
     = serial_receiver [Data sample_stream] [].
Proof.
  assert (H : bytes_read (map Data sample_chunks)
              = bytes_read [Data sample_stream]) by (vm_compute; reflexivity).
  split; [exact H|].
  exact (receiver_ignores_read_boundaries _ _ [] H).
Defined.

(** X7. A transport error ends the receive loop: whatever the port would
    deliver after a [SerialException] is never read, and the payloads queued
    before it stay queued. *)
Theorem serial_exception_ends_receiver (pre post : list read_result)
                                       (q : list (list Z)) :
  serial_receiver (pre ++ SerialException :: post) q = serial_receiver pre q.
Proof.
  rewrite !serial_receiver_bytes_read, bytes_read_exception.
  now rewrite app_nil_r.
Qed.

(** X8. The receiver never fails and never invents a payload: for any reads
    whatever, it ends normally with fewer than 16 bytes buffered; the queue
    keeps what it held and gains payloads at the back only; every payload
    gained has exactly 11 bytes and was decoded from 16 consecutive bytes of
    the bytes read; and 16 bytes of input are spent for each of them. *)
Theorem receiver_sound (ser : list read_result) (q : list (list Z)) :
  exists residual new,
    serial_receiver ser q
    = Done {| buffer := residual; packet_queue := q ++ new |}
    /\ (length residual < 16)%nat
    /\ Forall (decoded_from (bytes_read ser)) new
    /\ Forall (fun p => length p = 11%nat) new
    /\ (16 * length new + length residual <= length (bytes_read ser))%nat.
Proof.
  rewrite serial_receiver_bytes_read.
  destruct (inner_loop_trace {| buffer := bytes_read ser; packet_queue := q |})
    as (residual & new & Hrun & Hall & Hcount).
  cbn [buffer packet_queue] in Hrun, Hall, Hcount.
  exists residual, new. split; [exact Hrun|].
  split.
  { destruct (inner_loop_done {| buffer := bytes_read ser; packet_queue := q |})
      as (st' & Hrun' & Hshort & _).
    rewrite Hrun in Hrun'. injection Hrun' as <-. exact Hshort. }
  split; [exact Hall|]. split; [|exact Hcount].
  eapply Forall_impl; [|exact Hall].
  intros p (pre & window & post & _ & Hd).
  now apply tryDecode_payload_length with window.
Qed.

(** ** The session end to end *)

Lemma inner_loop_frames (ps : list (list Z)) :
  forall q,
    Forall is_payload ps ->
    inner_loop {| buffer := concat (map frame_of ps); packet_queue := q |}
    = Done {| buffer := []; packet_queue := q ++ ps |}.
Proof.
  induction ps as [|p ps IH]; intros q Hps; cbn [map concat].
  - rewrite app_nil_r. apply inner_loop_short. cbn. lia.
  - apply Forall_cons_iff in Hps. destruct Hps as [Hp Hps].
    rewrite inner_loop_unfold, frame_step by assumption.
    rewrite IH by assumption. now rewrite <- app_assoc.
Qed.

Lemma items_map_Item (ps : list (list Z)) : items (map Item ps) = ps.
Proof. induction ps as [|p ps IH]; cbn; [reflexivity | now rewrite IH]. Qed.

Lemma exact_match_table :
  forallb (fun e => (e =? 0) || exact_match_zero e) byte_values = true.
Proof. vm_compute. reflexivity. Qed.

Lemma percent_error_exact_match (e : Z) :
  is_byte e -> e <> 0 -> percent_error e e = S754_zero false.
Proof.
  intros He Hnz.
  pose proof exact_match_table as Htable.
  rewrite forallb_forall in Htable.
  specialize (Htable e (byte_values_complete He)).
  apply orb_true_iff in Htable. destruct Htable as [Hz|Hrow]; [lia|].
  unfold exact_match_zero in Hrow.
  destruct (percent_error e e) as [[|]| | |]; try discriminate. reflexivity.
Qed.

(** X9. Loopback: when the port gives back, in reads of any sizes, exactly
    the bytes the session wrote (N frames of 11 non-zero expected bytes),
    the receiver queues N copies of the expected payload and ends with an
    empty buffer, and the session consuming them ends with 11 * N records
    in which received equals expected, the error is [+0.0] and the verdict
    is PASS. *)
Theorem loopback_all_pass (expected_data : list Z) (N : nat)
                          (chunks written : list (list Z)) :
  length expected_data = 11%nat ->
  Forall (fun e => is_byte e /\ e <> 0) expected_data ->
  send_packets expected_data N [] = Ok written ->
  concat chunks = concat written ->
  serial_receiver (map Data chunks) []
  = Done {| buffer := []; packet_queue := repeat expected_data N |}
  /\ exists s,
       run_session expected_data N (map Item (repeat expected_data N))
       = Ok (written, Finished s)
       /\ received_packets s = N
       /\ length (results_all s) = (11 * N)%nat
       /\ Forall (fun r => Cmp.received r = Cmp.expected r
                           /\ Cmp.error r = S754_zero false
                           /\ Cmp.status r = PASS) (results_all s).
Proof.
  intros Hlen Hexp Hsend Hecho.
  assert (Hbytes : Forall is_byte expected_data).
  { eapply Forall_impl; [|exact Hexp]. now intros e [He _]. }
  assert (Hnz : Forall (fun e => e <> 0) expected_data).
  { eapply Forall_impl; [|exact Hexp]. now intros e [_ He]. }
  assert (Hp : is_payload expected_data) by (split; assumption).
  assert (Hframe : create_packet expected_data = Ok (frame_of expected_data)).
  { rewrite create_packet_bytes, frame_of_bytes by assumption. reflexivity. }
  rewrite send_packets_ok with (1 := Hframe) in Hsend. cbn [app] in Hsend.
  injection Hsend as <-.
  split.
  - unfold serial_receiver. rewrite receiver_loop_chunks by (cbn; lia).
    unfold extend. cbn [buffer packet_queue app]. rewrite Hecho.
    rewrite <- map_repeat.
    rewrite inner_loop_frames; [reflexivity|].
    apply Forall_forall. intros p Hin. apply repeat_spec in Hin. now subst p.
  - destruct (consume_items (packets_to_send := N) Hlen Hnz
                (map Item (repeat expected_data N)) session_start)
      as (s & Hrun & Hn & Hres).
    + rewrite items_map_Item. apply Forall_forall. intros p Hin.
      apply repeat_spec in Hin. now subst p.
    + rewrite items_map_Item, repeat_length. reflexivity.
    + rewrite items_map_Item in Hres. cbn [session_start results_all app] in Hres.
      exists s. split.
      { unfold run_session. rewrite send_packets_ok with (1 := Hframe).
        cbn [bind app]. now rewrite Hrun. }
      split; [exact Hn|]. split.
      { rewrite Hres, flat_map_blocks_length with (k := 11%nat)
          by (intros p; apply payload_records_length).
        now rewrite repeat_length. }
      rewrite Hres. apply Forall_forall. intros r Hin.
      apply in_flat_map in Hin. destruct Hin as (p & Hp' & Hin).
      apply repeat_spec in Hp'. subst p.
      unfold payload_records in Hin. apply in_map_iff in Hin.
      destruct Hin as (idx & <- & Hidx). apply in_seq in Hidx.
      assert (Hin : In (nth idx expected_data 0) expected_data)
        by (apply nth_In; lia).
      rewrite Forall_forall in Hexp. destruct (Hexp _ Hin) as [He Hne].
      cbn [field_record Cmp.received Cmp.expected Cmp.error Cmp.status].
      rewrite (percent_error_exact_match He Hne).
      repeat split.
Qed.

Lemma loopback_all_pass_witness :
  length sample_payload = 11%nat
  /\ Forall (fun e => is_byte e /\ e <> 0) sample_payload
  /\ send_packets sample_payload 2 []
     = Ok [frame_of sample_payload; frame_of sample_payload]
  /\ concat [firstn 5 (frame_of sample_payload);
             skipn 5 (frame_of sample_payload) ++ frame_of sample_payload]
     = concat [frame_of sample_payload; frame_of sample_payload]
  /\ serial_receiver
       (map Data [firstn 5 (frame_of sample_payload);
                  skipn 5 (frame_of sample_payload) ++ frame_of sample_payload])
       []
     = Done {| buffer := []; packet_queue := repeat sample_payload 2 |}.
Proof.
  assert (Hexp : Forall (fun e => is_byte e /\ e <> 0) sample_payload).
  { repeat constructor; unfold is_byte; lia. }
  assert (Hsend : send_packets sample_payload 2 []
                  = Ok [frame_of sample_payload; frame_of sample_payload])
    by (vm_compute; reflexivity).
  assert (Hecho : concat [firstn 5 (frame_of sample_payload);
                          skipn 5 (frame_of sample_payload)
                          ++ frame_of sample_payload]
                  = concat [frame_of sample_payload; frame_of sample_payload])
    by (vm_compute; reflexivity).
  split; [reflexivity|]. split; [exact Hexp|]. split; [exact Hsend|].
  split; [exact Hecho|].
  exact (proj1 (@loopback_all_pass sample_payload 2 _ _
                  eq_refl Hexp Hsend Hecho)).
Defined.

Section Abort.

Variable expected_data : list Z.

Lemma compare_fields_zero (recv_data : list Z) (idxs : list nat) :
  forall acc,
    Forall (fun idx => (idx < length expected_data)%nat
                       /\ (idx < length recv_data)%nat) idxs ->
    Exists (fun idx => nth idx expected_data 0 = 0) idxs ->
    compare_fields expected_data recv_data idxs acc = Raise ZeroDivisionError.
Proof.
  induction idxs as [|idx idxs IH]; intros acc Hall Hex; [inversion Hex|].
  apply Forall_cons_iff in Hall. destruct Hall as [[He Hr] Hall].
  cbn [compare_fields].
  destruct (Z.eq_dec (nth idx expected_data 0) 0) as [Hz|Hnz].
  - unfold compare_field. rewrite !getitem_nth by assumption. cbn [bind].
    unfold Float64.truediv. rewrite Hz. reflexivity.
  - rewrite compare_field_ok by assumption. cbn [bind].
    apply IH; [assumption|].
    apply Exists_cons in Hex. destruct Hex as [Hz|Hex]; [contradiction|exact Hex].
Qed.

End Abort.

(** X10. A zero among the expected values aborts the comparison: as soon as
    a payload is taken from the queue, the loop leaves with
    [ZeroDivisionError]; it does not go on to later payloads. *)
Theorem zero_expected_aborts (expected_data recv_data : list Z)
                             (packets_to_send : nat)
                             (gets : list get_result) (s : session) :
  length expected_data = 11%nat -> length recv_data = 11%nat ->
  In 0 expected_data ->
  (received_packets s < packets_to_send)%nat ->
  consume expected_data packets_to_send (Item recv_data :: gets) s
  = Aborted ZeroDivisionError.
Proof.
  intros He Hr Hzero Hlt. cbn [consume].
  apply Nat.ltb_lt in Hlt. rewrite Hlt.
  rewrite compare_fields_zero; [reflexivity | |].
  - apply Forall_forall. intros idx Hin. apply in_seq in Hin. lia.
  - apply Exists_exists.
    destruct (In_nth _ _ 0 Hzero) as (idx & Hidx & Hnth).
    exists idx. split; [apply in_seq; lia | exact Hnth].
Qed.

Lemma zero_expected_aborts_witness :
  length [10; 20; 0; 40; 50; 60; 70; 80; 90; 100; 110] = 11%nat
  /\ length sample_payload = 11%nat
  /\ In 0 [10; 20; 0; 40; 50; 60; 70; 80; 90; 100; 110]
  /\ (received_packets session_start < 5)%nat
  /\ consume [10; 20; 0; 40; 50; 60; 70; 80; 90; 100; 110] 5
       [Item sample_payload; Item sample_payload] session_start
     = Aborted ZeroDivisionError.
Proof.
  assert (Hz : In 0 [10; 20; 0; 40; 50; 60; 70; 80; 90; 100; 110])
    by (cbn; tauto).
  assert (Hlt : (received_packets session_start < 5)%nat) by (cbn; lia).
  split; [reflexivity|]. split; [reflexivity|]. split; [exact Hz|].
  split; [exact Hlt|].
  exact (@zero_expected_aborts [10; 20; 0; 40; 50; 60; 70; 80; 90; 100; 110]
           sample_payload 5 [Item sample_payload] session_start
           eq_refl eq_refl Hz Hlt).
Defined.

(** X11. The consumption loop composes over the queue events: while it is
    still waiting, later events are handled from the state it has reached;
    once it has ended, or has been left by an exception, later events change
    nothing, so payloads beyond the [packets_to_send]-th are never taken. *)
Theorem consume_composes (expected_data : list Z) (packets_to_send : nat)
                         (gets more : list get_result) (s : session) :
  consume expected_data packets_to_send (gets ++ more) s
  = match consume expected_data packets_to_send gets s with
    | Waiting s1 => consume expected_data packets_to_send more s1
    | ended => ended
    end.
Proof.
  revert s. induction gets as [|g gets IH]; intros s.
  - cbn [app consume].
    destruct (received_packets s <? packets_to_send)%nat eqn:E; [reflexivity|].
    destruct more as [|g more]; cbn [consume]; now rewrite E.
  - cbn [app consume].
    destruct (received_packets s <? packets_to_send)%nat; [|reflexivity].
    destruct g as [recv_data|]; [|apply IH].
    destruct (compare_fields expected_data recv_data (range 11) _);
      [apply IH | reflexivity].
Qed.

(** X12. What the send phase does to the session: with byte values to send
    it writes [packets_to_send] identical frames, each five bytes longer
    than the expected list, before the first payload is awaited; with a
    value outside 0..255 and at least one packet to send it raises
    [ValueError] and nothing is consumed. *)
Theorem send_phase (expected_data : list Z) (packets_to_send : nat)
                   (gets : list get_result) :
  (Forall is_byte expected_data ->
   exists frame,
     create_packet expected_data = Ok frame
     /\ length frame = (length expected_data + 5)%nat
     /\ run_session expected_data packets_to_send gets
        = Ok (repeat frame packets_to_send,
              consume expected_data packets_to_send gets session_start))
  /\ (~ Forall is_byte expected_data -> (0 < packets_to_send)%nat ->
      run_session expected_data packets_to_send gets = Raise ValueError).
Proof.
  split.
  - intros Hb. exists (frame_of expected_data).
    assert (Hframe : create_packet expected_data = Ok (frame_of expected_data)).
    { rewrite create_packet_bytes, frame_of_bytes by assumption. reflexivity. }
    split; [exact Hframe|]. split; [now apply frame_of_length|].
    unfold run_session. now rewrite send_packets_ok with (1 := Hframe).
  - intros Hb Hn. unfold run_session.
    destruct packets_to_send as [|n]; [lia|].
    cbn [send_packets]. unfold create_packet. now rewrite bytes_not_ok.
Qed.

Lemma send_phase_witness :
  ~ Forall is_byte [10; 300] /\ (0 < 1)%nat
  /\ run_session [10; 300] 1 [Item sample_payload] = Raise ValueError.
Proof.
  assert (Hn : ~ Forall is_byte [10; 300]).
  { intros H. inversion H as [|? ? _ H']. inversion H' as [|? ? Hbad _].
    unfold is_byte in Hbad. lia. }
  assert (Hp : (0 < 1)%nat) by lia.
  split; [exact Hn|]. split; [exact Hp|].
  exact (proj2 (send_phase [10; 300] 1 [Item sample_payload]) Hn Hp).
Defined.

(** ** One corrupted byte *)

Lemma crc16_differ (pre post : list Z) (b d : Z) :
  word16 d -> d <> 0 ->
  crc16 (pre ++ Z.lxor b d :: post) <> crc16 (pre ++ b :: post).
Proof.
  intros Hw Hnz. unfold crc16. rewrite !fold_left_app. cbn [fold_left].
  generalize (fold_left byte_step pre 65535). intros c.
  unfold byte_step at 2 4.
  replace (Z.lxor c (Z.lxor b d)) with (Z.lxor (Z.lxor c b) d) by xor_bits.
  rewrite iter_shift_step_lxor, fold_byte_step_lxor.
  apply lxor_changes. rewrite <- Nat.iter_add.
  now apply iter_shift_step_nonzero.
Qed.

Lemma nth_split_skipn (i : nat) (l : list Z) (d : Z) :
  (i < length l)%nat -> skipn i l = nth i l d :: skipn (S i) l.
Proof.
  revert l. induction i as [|i IH]; intros [|x l] Hi; cbn in Hi; try lia.
  - reflexivity.
  - cbn [skipn nth]. apply IH. lia.
Qed.

Lemma crc16_replace_byte (data : list Z) (i : nat) (b : Z) :
  (i < length data)%nat ->
  is_byte (nth i data 0) -> is_byte b -> b <> nth i data 0 ->
  crc16 (replace_byte i b data) <> crc16 data.
Proof.
  intros Hi Hold Hnew Hne. unfold replace_byte.
  pose proof (@nth_split_skipn i data 0 Hi) as Hs. rewrite Hs.
  assert (Hsplit : firstn i data ++ nth i data 0 :: skipn (S i) data = data)
    by (rewrite <- Hs; apply firstn_skipn).
  assert (Hb : b = Z.lxor (nth i data 0) (Z.lxor (nth i data 0) b))
    by now rewrite <- Z.lxor_assoc, Z.lxor_nilpotent, Z.lxor_0_l.
  assert (G : crc16 (firstn i data
                     ++ Z.lxor (nth i data 0) (Z.lxor (nth i data 0) b)
                        :: skipn (S i) data)
              <> crc16 (firstn i data ++ nth i data 0 :: skipn (S i) data)).
  { apply crc16_differ.
    - apply lxor_word16; unfold word16, is_byte in *; lia.
    - intros H. apply Z.lxor_eq in H. congruence. }
  rewrite <- Hb, Hsplit in G. exact G.
Qed.

Lemma tryDecode_corrupted (P : list Z) (i : nat) (b : Z) :
  is_payload P -> (i < 16)%nat -> is_byte b -> b <> nth i (frame_of P) 0 ->
  tryDecode (replace_byte i b (frame_of P)) = None.
Proof.
  intros [Hlen Hbytes] Hi Hb. rewrite frame_of_bytes by assumption.
  unfold checksum_bytes. intros Hne.
  assert (Hrawb : Forall is_byte (HEADER ++ P)).
  { apply Forall_app. split; [apply header_bytes | assumption]. }
  pose proof (crc16_word16 Hrawb) as Hcrc.
  pose proof (land255_shiftr8 (proj1 Hcrc)) as Hsum.
  assert (Hraw : forall j, (j < 14)%nat -> b <> nth j (HEADER ++ P) 0 ->
                 crc16 (replace_byte j b (HEADER ++ P)) <> crc16 (HEADER ++ P)).
  { intros j Hj Hnej.
    assert (Hjl : (j < length (HEADER ++ P))%nat)
      by (rewrite length_app, Hlen; cbn; lia).
    apply crc16_replace_byte; try assumption.
    rewrite Forall_forall in Hrawb. apply Hrawb, nth_In, Hjl. }
  clear Hrawb.
  remember (crc16 (HEADER ++ P)) as c eqn:Hc.
  do 11 (destruct P as [|? P]; [discriminate Hlen|]).
  destruct P; [|discriminate Hlen].
  cbn [HEADER app] in Hc, Hraw, Hne |- *.
  do 16 (destruct i as [|i];
    [ match goal with
      | |- tryDecode (replace_byte ?n _ _) = None =>
          first
            [ (* a byte of the magic *)
              unfold replace_byte; cbn [firstn skipn app tryDecode];
              cbn [nth] in Hne;
              match goal with
              | |- context [b =? ?m] =>
                  rewrite (proj2 (Z.eqb_neq b m) Hne); reflexivity
              end
            | (* a byte of the payload *)
              let H := fresh "Hchange" in
              assert (H := Hraw n ltac:(lia) Hne);
              unfold replace_byte in H |- *;
              cbn [firstn skipn app tryDecode] in H |- *;
              rewrite Hsum, (proj2 (Z.eqb_neq _ _) H); reflexivity
            | (* a byte of the checksum *)
              unfold replace_byte; cbn [firstn skipn app tryDecode];
              cbn [nth] in Hne; rewrite <- Hc;
              match goal with
              | |- context [c =? ?v] =>
                  replace (c =? v) with false
                    by (symmetry; apply Z.eqb_neq; lia)
              end;
              reflexivity ]
      end
    |]).
  lia.
Qed.

Lemma replace_byte_length (i : nat) (b : Z) (l : list Z) :
  length (replace_byte i b l) = length l.
Proof.
  unfold replace_byte. rewrite length_app.
  transitivity (length (firstn i l) + length (skipn i l))%nat.
  - now destruct (skipn i l).
  - now rewrite <- length_app, firstn_skipn.
Qed.

(** X13. One corrupted byte is always caught: replace any one of the 16
    bytes of a frame by a different byte value, and the receiver's checks
    reject the result; a pass of the loop queues nothing and drops the
    leading byte.  (Inverting any number of bits within one byte is the
    special case.) *)
Theorem one_corrupted_byte_rejected (P rest : list Z) (q : list (list Z))
                                    (i : nat) (b : Z) :
  length P = 11%nat -> Forall is_byte P -> (i < 16)%nat ->
  is_byte b -> b <> nth i (frame_of P) 0 ->
  tryDecode (replace_byte i b (frame_of P)) = None
  /\ inner_step {| buffer := replace_byte i b (frame_of P) ++ rest;
                   packet_queue := q |}
     = Continue {| buffer := skipn 1 (replace_byte i b (frame_of P) ++ rest);
                   packet_queue := q |}.
Proof.
  intros Hlen Hbytes Hi Hb Hne.
  assert (Hp : is_payload P) by (split; assumption).
  pose proof (tryDecode_corrupted Hp Hi Hb Hne) as Hdec.
  split; [exact Hdec|].
  assert (Hl : length (replace_byte i b (frame_of P)) = 16%nat).
  { rewrite replace_byte_length, frame_of_length, Hlen by assumption.
    reflexivity. }
  rewrite inner_step_tryDecode by (cbn; rewrite length_app; lia).
  cbn [buffer]. now rewrite (firstn_exact _ rest Hl), Hdec.
Qed.

Lemma one_corrupted_byte_rejected_witness :
  length sample_payload = 11%nat /\ Forall is_byte sample_payload
  /\ (14 < 16)%nat /\ is_byte 0 /\ 0 <> nth 14 (frame_of sample_payload) 0
  /\ tryDecode [36; 70; 83; 10; 20; 30; 40; 50; 60; 70; 80; 90; 100; 110; 0; 110]
     = None.
Proof.
  assert (Hb : Forall is_byte sample_payload)
    by (repeat constructor; unfold is_byte; lia).
  assert (Hi : (14 < 16)%nat) by lia.
  assert (H0 : is_byte 0) by (unfold is_byte; lia).
  assert (Hne : 0 <> nth 14 (frame_of sample_payload) 0)
    by (vm_compute; discriminate).
  split; [reflexivity|]. split; [exact Hb|]. split; [exact Hi|].
  split; [exact H0|]. split; [exact Hne|].
  exact (proj1 (one_corrupted_byte_rejected (P := sample_payload) [] []
                  eq_refl Hb Hi H0 Hne)).
Defined.

(** X14. What the 1 % tolerance means on byte values: a field passes
    exactly when the received byte is within [expected / 100] (integer
    division) of the expected one; so for an expected value below 100 only
    the exact value passes, from 100 to 199 a difference of one, and from
    200 on a difference of two. *)
Theorem tolerance_window (expected_data recv_data : list Z) (idx : nat)
                         (e r : Z) :
  nth_error expected_data idx = Some e ->
  nth_error recv_data idx = Some r ->
  is_byte e -> is_byte r -> e <> 0 ->
  exists record,
    compare_field expected_data recv_data idx = Ok record
    /\ (Cmp.status record = PASS <-> Z.abs (r - e) <= e / 100)
    /\ (e < 100 -> (Cmp.status record = PASS <-> r = e)).
Proof.
  intros He Hr Hbe Hbr Hnz.
  assert (Hie : (idx < length expected_data)%nat)
    by (apply nth_error_Some; congruence).
  assert (Hir : (idx < length recv_data)%nat)
    by (apply nth_error_Some; congruence).
  assert (Hne : nth idx expected_data 0 = e) by now apply nth_error_nth.
  assert (Hnr : nth idx recv_data 0 = r) by now apply nth_error_nth.
  exists (field_record idx e r).
  split; [rewrite compare_field_ok, Hne, Hnr by (assumption || lia); reflexivity|].
  cbn [field_record Cmp.status].
  rewrite (verdict_exact Hbe Hnz Hbr). unfold exact_within_tolerance.
  unfold is_byte in Hbe, Hbr.
  pose proof (Z.div_mod e 100 ltac:(lia)) as Hdm.
  pose proof (Z.mod_pos_bound e 100 ltac:(lia)) as Hm.
  assert (Hwin : 100 * Z.abs (r - e) <= e <-> Z.abs (r - e) <= e / 100) by lia.
  destruct (100 * Z.abs (r - e) <=? e) eqn:E.
  - apply Z.leb_le in E. split.
    + split; [intros _; now apply Hwin | reflexivity].
    + intros Hsmall.
      assert (e / 100 = 0) by (apply Z.div_small; lia).
      split; [intros _; lia | reflexivity].
  - apply Z.leb_gt in E. split.
    + split; [discriminate | intros H; apply Hwin in H; lia].
    + intros Hsmall. split; [discriminate | intros ->].
      rewrite Z.sub_diag in E. cbn in E. lia.
Qed.

Lemma tolerance_window_witness :
  nth_error sample_payload 0 = Some 10
  /\ nth_error [11; 20; 30; 40; 50; 60; 70; 80; 90; 100; 110] 0 = Some 11
  /\ is_byte 10 /\ is_byte 11 /\ 10 <> 0
  /\ exists record,
       compare_field sample_payload
         [11; 20; 30; 40; 50; 60; 70; 80; 90; 100; 110] 0 = Ok record
       /\ Cmp.status record <> PASS.
Proof.
  assert (Hbe : is_byte 10) by (unfold is_byte; lia).
  assert (Hbr : is_byte 11) by (unfold is_byte; lia).
  assert (Hnz : 10 <> 0) by lia.
  repeat (split; [first [reflexivity | assumption]|]).
  destruct (tolerance_window
              sample_payload [11; 20; 30; 40; 50; 60; 70; 80; 90; 100; 110]
              0 eq_refl eq_refl Hbe Hbr Hnz)
    as (record & Hrun & _ & Hsmall).
  exists record. split; [exact Hrun|].
  intros Hpass. apply Hsmall in Hpass; [discriminate Hpass | lia].
Defined.

(** X15. Frames determine their payloads: two payloads, of any lengths, for
    which [create_packet] returns the same frame are equal. *)
Theorem create_packet_injective (p1 p2 frame : list Z) :
  create_packet p1 = Ok frame -> create_packet p2 = Ok frame -> p1 = p2.
Proof.
  intros H1 H2.
  apply create_packet_inv in H1, H2.
  destruct H1 as [_ H1], H2 as [_ H2]. rewrite H1 in H2.
  apply app_inv_head in H2.
  assert (Hlen : length p1 = length p2).
  { apply (f_equal (@length Z)) in H2. rewrite !length_app in H2.
    unfold checksum_bytes in H2. cbn [length] in H2. lia. }
  apply (f_equal (firstn (length p1))) in H2.
  rewrite firstn_exact in H2 by reflexivity.
  rewrite Hlen, firstn_exact in H2 by reflexivity. exact H2.
Qed.

Lemma create_packet_injective_witness :
  create_packet sample_payload = Ok (frame_of sample_payload)
  /\ sample_payload = sample_payload.
Proof.
  assert (H : create_packet sample_payload = Ok (frame_of sample_payload))
    by (vm_compute; reflexivity).
  split; [exact H|].
  exact (create_packet_injective sample_payload sample_payload H H).
Defined.
